(** * GTFS timetable filter for the Irun - Brinkola corridor

    A shallow embedding of [parseGTFS] (src/index.tsx, and its verbatim twin
    in src/App.tsx) together with the station table [GIPUZKOA_STATIONS].

    Conventions of the embedding.
    - A JavaScript string is a [string]: one [ascii] per UTF-16 code unit,
      so the texts covered are those whose code units are below 256.
    - A value read out of an array by index ([cols[i]]) is a [field]:
      [Some s] for a string and [None] for [undefined].
    - [Set<string>] is a [gset field] (a short row can put [undefined] in
      it), [Map<string, number>] built from the station table is a
      [gmap string Z], the insertion-ordered [Map<string, StopTime[]>] is an
      association list, the object [stopsMap] is a [gmap string string].
    - A [number] produced by [parseInt] is an [option Z], [None] being NaN
      (exact for the integers a double represents exactly).
    - [onProgress] calls are collected in a trace; [throw] is the left
      injection of a sum.
    - [parseGTFS] starts from the members of the archive once loaded
      ([content.files], as texts) and from the record returned by
      [getDateInfo]; unzipping and the [Date] arithmetic are outside. *)

From Stdlib Require Import ZArith Ascii String List Lia DecimalString Sorted.
From stdpp Require Import base option list gmap sets strings.

Local Open Scope string_scope.
Local Open Scope Z_scope.

#[local] Set Warnings "-clear-no-such-hyp".

(** ** JavaScript values and string primitives *)

Definition field : Type := option string.

Definition LF : ascii := "010"%char.
Definition COMMA : ascii := ","%char.

(** WhiteSpace and LineTerminator code units below 256:
    TAB, LF, VT, FF, CR, SP, NBSP. *)
Definition isWhiteSpace (c : ascii) : bool :=
  let n := N_of_ascii c in
  ((9 <=? n)%N && (n <=? 13)%N) || (n =? 32)%N || (n =? 160)%N.

Definition isEmpty (s : string) : bool :=
  match s with EmptyString => true | String _ _ => false end.

Fixpoint trimStart (s : string) : string :=
  match s with
  | EmptyString => EmptyString
  | String c r => if isWhiteSpace c then trimStart r else s
  end.

Fixpoint trimEnd (s : string) : string :=
  match s with
  | EmptyString => EmptyString
  | String c r =>
      let r' := trimEnd r in
      if isWhiteSpace c && isEmpty r' then EmptyString else String c r'
  end.

(** [String.prototype.trim] *)
Definition trim (s : string) : string := trimEnd (trimStart s).

(** [String.prototype.split] with a one-character separator: the result is
    never empty, [split sep ""] is [[""]]. *)
Fixpoint split (sep : ascii) (s : string) : list string :=
  match s with
  | EmptyString => [EmptyString]
  | String c r =>
      if Ascii.eqb c sep then EmptyString :: split sep r
      else match split sep r with
           | [] => [String c EmptyString]
           | f :: fs => String c f :: fs
           end
  end.

(** [String.prototype.substring(0, n)] *)
Fixpoint substring0 (n : nat) (s : string) : string :=
  match n, s with
  | S k, String c r => String c (substring0 k r)
  | _, _ => EmptyString
  end.

Fixpoint indexOfFrom (i : Z) (l : list string) (x : field) : Z :=
  match l with
  | [] => -1
  | h :: t => if decide (Some h = x) then i else indexOfFrom (i + 1) t x
  end.

(** [Array.prototype.indexOf]: position of the first element strictly equal
    to [x], or [-1]. *)
Definition indexOf (l : list string) (x : field) : Z := indexOfFrom 0 l x.

(** [cols[i]]: [undefined] for [-1] and past the end. *)
Definition at_ (cols : list string) (i : Z) : field :=
  if i <? 0 then None else cols !! Z.to_nat i.

(** [a < b] on two strings compares code units lexicographically. *)
Definition js_lt (a b : string) : bool := String.ltb a b.

(** [a >= b] and [a <= b] with [a] a string: with [b] undefined both sides
    are converted to numbers, [b] to NaN, and the test is false. *)
Definition js_ge (a : string) (b : field) : bool :=
  match b with Some b => negb (js_lt a b) | None => false end.

Definition js_le (a : string) (b : field) : bool :=
  match b with Some b => negb (js_lt b a) | None => false end.

(** [x === '...']. *)
Definition js_eq (x : field) (s : string) : bool := bool_decide (x = Some s).

(** Truthiness of [string | null]: [null] and [""] are falsy. *)
Definition truthy (o : option string) : bool :=
  match o with Some s => negb (isEmpty s) | None => false end.

(** ** Calendar resolution (steps 2, 2a, 2b of [parseGTFS]) *)

Record DateInfo := {
  dateStr : string;        (* YYYYMMDD *)
  dayName : field;         (* days[dateObj.getDay()] *)
  formattedDate : string   (* DD/MM/YYYY *)
}.

Record CalendarIdx := {
  cal_service : Z; cal_day : Z; cal_start : Z; cal_end : Z
}.

Definition calendarIdx (headers : list string) (day : field) : CalendarIdx :=
  {| cal_service := indexOf headers (Some "service_id");
     cal_day := indexOf headers day;
     cal_start := indexOf headers (Some "start_date");
     cal_end := indexOf headers (Some "end_date") |}.

Definition calendarIdxOk (idx : CalendarIdx) : bool :=
  negb (cal_service idx =? -1) && negb (cal_day idx =? -1)
  && negb (cal_start idx =? -1) && negb (cal_end idx =? -1).

(** Body of the loop over [calendar.txt] lines. *)
Definition calendarRow (idx : CalendarIdx) (date : string)
    (activeServices : gset field) (rawLine : string) : gset field :=
  let line := trim rawLine in
  if isEmpty line then activeServices else
  let cols := split COMMA line in
  let serviceId := at_ cols (cal_service idx) in
  let isActiveDay := js_eq (at_ cols (cal_day idx)) "1" in
  let startDate := at_ cols (cal_start idx) in
  let endDate := at_ cols (cal_end idx) in
  if isActiveDay && js_ge date startDate && js_le date endDate
  then {[ serviceId ]} ∪ activeServices
  else activeServices.

Definition headerOf (lines : list string) : list string :=
  split COMMA (trim (hd EmptyString lines)).

(** 2a. the base-calendar pass over the text of [calendar.txt]. *)
Definition calendarPass (date : string) (day : field) (calendarTxt : string)
    (activeServices : gset field) : gset field :=
  let lines := split LF calendarTxt in
  let idx := calendarIdx (headerOf lines) day in
  if calendarIdxOk idx
  then fold_left (calendarRow idx date) (tl lines) activeServices
  else activeServices.

Record DatesIdx := { ex_service : Z; ex_date : Z; ex_type : Z }.

Definition datesIdx (headers : list string) : DatesIdx :=
  {| ex_service := indexOf headers (Some "service_id");
     ex_date := indexOf headers (Some "date");
     ex_type := indexOf headers (Some "exception_type") |}.

Definition datesIdxOk (idx : DatesIdx) : bool :=
  negb (ex_service idx =? -1) && negb (ex_date idx =? -1)
  && negb (ex_type idx =? -1).

(** Body of the loop over [calendar_dates.txt] lines. *)
Definition exceptionRow (idx : DatesIdx) (date : string)
    (activeServices : gset field) (rawLine : string) : gset field :=
  let line := trim rawLine in
  if isEmpty line then activeServices else
  let cols := split COMMA line in
  if js_eq (at_ cols (ex_date idx)) date then
    let type := at_ cols (ex_type idx) in
    let serviceId := at_ cols (ex_service idx) in
    if js_eq type "1" then {[ serviceId ]} ∪ activeServices
    else if js_eq type "2" then activeServices ∖ {[ serviceId ]}
    else activeServices
  else activeServices.

(** 2b. the exception pass over the text of [calendar_dates.txt]. *)
Definition exceptionPass (date : string) (calendarDatesTxt : string)
    (activeServices : gset field) : gset field :=
  let lines := split LF calendarDatesTxt in
  let idx := datesIdx (headerOf lines) in
  if datesIdxOk idx
  then fold_left (exceptionRow idx date) (tl lines) activeServices
  else activeServices.

(** [if (txt) { pass }] on the result of [readFile]. *)
Definition whenPresent (txt : option string)
    (pass : string -> gset field -> gset field)
    (activeServices : gset field) : gset field :=
  match txt with
  | Some t => if truthy txt then pass t activeServices else activeServices
  | None => activeServices
  end.

(** The active set as it stands when the emptiness test is reached. *)
Definition resolveServices (d : DateInfo) (calendarTxt calendarDatesTxt : option string)
    : gset field :=
  let activeServices : gset field := ∅ in
  let activeServices :=
    whenPresent calendarTxt (calendarPass (dateStr d) (dayName d)) activeServices in
  whenPresent calendarDatesTxt (exceptionPass (dateStr d)) activeServices.

(** ** The station table *)

Record StationDef := {
  orden : Z;
  estacion : string;   (* display name, never read by [parseGTFS] *)
  codigo : string
}.

(** Ordered list from Irun (1) to Brinkola (27). The accented letters of
    the names are single code units: a-acute is 225, i-acute 237, u-acute
    250. *)
Definition GIPUZKOA_STATIONS : list StationDef := [
  {| orden := 1; estacion := String "I" (String "r" (String "250" "n")); codigo := "11600" |};
  {| orden := 2; estacion := "Ventas de Ir" ++ String "250" "n"; codigo := "11518" |};
  {| orden := 3; estacion := "Lezo-Renter" ++ String "237" "a"; codigo := "11516" |};
  {| orden := 4; estacion := "Pasaia"; codigo := "11515" |};
  {| orden := 5; estacion := "Herrera"; codigo := "11514" |};
  {| orden := 6; estacion := "Ategorrieta"; codigo := "11513" |};
  {| orden := 7; estacion := "Gros"; codigo := "11512" |};
  {| orden := 8; estacion := "San Sebasti" ++ String "225" "n"; codigo := "11511" |};
  {| orden := 9; estacion := "Loiola"; codigo := "11510" |};
  {| orden := 10; estacion := "Martutene"; codigo := "11509" |};
  {| orden := 11; estacion := "Hernani"; codigo := "11508" |};
  {| orden := 12; estacion := "Hernani-Centro"; codigo := "11507" |};
  {| orden := 13; estacion := "Urnieta"; codigo := "11506" |};
  {| orden := 14; estacion := "Andoain"; codigo := "11505" |};
  {| orden := 15; estacion := "Andoain-Centro"; codigo := "11504" |};
  {| orden := 16; estacion := "Villabona-Zizurkil"; codigo := "11503" |};
  {| orden := 17; estacion := "Anoeta"; codigo := "11502" |};
  {| orden := 18; estacion := "Tolosa-Centro"; codigo := "11501" |};
  {| orden := 19; estacion := "Tolosa"; codigo := "11500" |};
  {| orden := 20; estacion := "Alegia"; codigo := "11409" |};
  {| orden := 21; estacion := "Itsasondo"; codigo := "11406" |};
  {| orden := 22; estacion := "Ordizia"; codigo := "11405" |};
  {| orden := 23; estacion := "Beasain"; codigo := "11404" |};
  {| orden := 24; estacion := "Ormaiztegi"; codigo := "11402" |};
  {| orden := 25; estacion := "Zum" ++ String "225" "rraga"; codigo := "11400" |};
  {| orden := 26; estacion := "Legazpi"; codigo := "11306" |};
  {| orden := 27; estacion := "Br" ++ String "237" "ncola"; codigo := "11305" |}
].

(** [new Set(stations.map(s => s.codigo))] *)
Definition mkValidStopCodes (stations : list StationDef) : gset string :=
  fold_left (fun acc s => {[ codigo s ]} ∪ acc) stations ∅.

(** [new Map(stations.map(s => [s.codigo, s.orden]))]: a later pair with the
    same key replaces the earlier one. *)
Definition mkCodeToOrder (stations : list StationDef) : gmap string Z :=
  fold_left (fun acc s => <[ codigo s := orden s ]> acc) stations ∅.

(** ** Numbers: [parseInt] and the sort comparator *)

Definition digitValue (radix : Z) (c : ascii) : option Z :=
  let n := Z.of_N (N_of_ascii c) in
  let v := if (48 <=? n) && (n <=? 57) then Some (n - 48)
           else if (97 <=? n) && (n <=? 122) then Some (n - 87)
           else if (65 <=? n) && (n <=? 90) then Some (n - 55)
           else None in
  match v with
  | Some dv => if dv <? radix then Some dv else None
  | None => None
  end.

(** Value of the longest prefix of radix digits; [None] when it is empty. *)
Fixpoint parseDigits (radix : Z) (acc : option Z) (s : string) : option Z :=
  match s with
  | EmptyString => acc
  | String c r =>
      match digitValue radix c with
      | Some dv => parseDigits radix (Some (default 0 acc * radix + dv)) r
      | None => acc
      end
  end.

(** [parseInt(x)] without a radix: leading white space is skipped, a sign is
    read, a [0x]/[0X] prefix selects radix 16, the digits that follow are
    read as far as they go, and NaN is returned when there is none.
    [parseInt(undefined)] reads the text "undefined" and is NaN.
    The result here is the integer read; the number the code holds is the
    double nearest to it, which is that integer for magnitudes up to 2^53
    and a rounded value (or Infinity) beyond. Statements about the value or
    the order of stop sequences are made for that range ([safeSequence]). *)
Definition parseInt (x : field) : option Z :=
  match x with
  | None => None
  | Some s =>
      let s1 := trimStart s in
      let '(sign, s2) :=
        match s1 with
        | String "-" r => (-1, r)
        | String "+" r => (1, r)
        | _ => (1, s1)
        end in
      let '(radix, s3) :=
        match s2 with
        | String "0" (String "x" r) => (16, r)
        | String "0" (String "X" r) => (16, r)
        | _ => (10, s2)
        end in
      (fun v => sign * v) <$> parseDigits radix None s3
  end.

(** [a - b] on numbers: NaN if either side is. *)
Definition numSub (a b : option Z) : option Z :=
  match a, b with
  | Some x, Some y => Some (x - y)
  | _, _ => None
  end.

(** SortCompare: a comparator result that is NaN counts as [+0]. *)
Definition sortCompare {A} (comparefn : A -> A -> option Z) (x y : A) : Z :=
  default 0 (comparefn x y).

Fixpoint insertBy {A} (comparefn : A -> A -> option Z) (x : A) (l : list A)
    : list A :=
  match l with
  | [] => [x]
  | y :: t =>
      if sortCompare comparefn x y <=? 0 then x :: l
      else y :: insertBy comparefn x t
  end.

(** [Array.prototype.sort(comparefn)]. The sort is stable, so for a
    consistent comparator its result is the one computed here (elements in
    comparator order, equal ones in their original order). For an
    inconsistent comparator (a NaN among numbers) the order is left to the
    engine and need not be the one computed here: statements about the
    order of a sorted list are made for consistent comparators only. *)
Definition sortBy {A} (comparefn : A -> A -> option Z) (l : list A) : list A :=
  foldr (insertBy comparefn) [] l.

(** ** Records of the pipeline *)

Record StopTime := {
  trip_id : field;
  arrival_time : string;
  departure_time : field;
  stop_id : string;
  stop_sequence : option Z
}.

Record ParsedTrip := {
  id : field;
  stops : gmap string string;     (* stationCode -> departureTime *)
  firstStopOrder : Z;
  lastStopOrder : Z;
  departureFromOrigin : string    (* used for sorting *)
}.

Record Result := {
  toBrinkola : list ParsedTrip;
  toIrun : list ParsedTrip;
  dateUsed : string
}.

(** The two [throw new Error(...)] of [parseGTFS], and the TypeError raised
    by a method call on [undefined]. *)
Inductive Error :=
  | NoActiveService (date : string)   (* "No se encontraron servicios activos para la fecha ..." *)
  | MissingFile (filename : string)   (* "No se encontro <filename>" *)
  | TypeError.

(** ** Step 3: active trips *)

Record TripsIdx := { t_trip : Z; t_service : Z }.

Definition tripsIdx (headers : list string) : TripsIdx :=
  {| t_trip := indexOf headers (Some "trip_id");
     t_service := indexOf headers (Some "service_id") |}.

(** Body of the loop over [trips.txt] lines (the line is not trimmed).
    [tripServiceMap] is written here and never read, it is left out. *)
Definition tripsRow (idx : TripsIdx) (activeServices : gset field)
    (activeTrips : gset field) (line : string) : gset field :=
  if isEmpty line then activeTrips else
  let cols := split COMMA line in
  let tripId := at_ cols (t_trip idx) in
  let serviceId := at_ cols (t_service idx) in
  if bool_decide (serviceId ∈ activeServices)
  then {[ tripId ]} ∪ activeTrips
  else activeTrips.

Definition tripsPass (activeServices : gset field) (tripsTxt : string)
    : gset field :=
  let tripsLines := split LF tripsTxt in
  let tIdx := tripsIdx (headerOf tripsLines) in
  fold_left (tripsRow tIdx activeServices) (tl tripsLines) ∅.

(** ** Step 4: stop times of active trips inside the corridor *)

Record StopTimesIdx := { st_trip : Z; st_dep : Z; st_stop : Z; st_seq : Z }.

Definition stopTimesIdx (headers : list string) : StopTimesIdx :=
  {| st_trip := indexOf headers (Some "trip_id");
     st_dep := indexOf headers (Some "departure_time");
     st_stop := indexOf headers (Some "stop_id");
     st_seq := indexOf headers (Some "stop_sequence") |}.

(** [const cleanId = (id: string) => id.trim()]; on [undefined] the method
    call throws. *)
Definition cleanId (x : field) : Error + string :=
  match x with
  | Some s => inr (trim s)
  | None => inl TypeError
  end.

(** [if (!tripStops.has(k)) tripStops.set(k, []); tripStops.get(k)?.push(st)]
    on the insertion-ordered map: a new key goes to the end. *)
Fixpoint pushStop (tripId : field) (st : StopTime)
    (tripStops : list (field * list StopTime)) : list (field * list StopTime) :=
  match tripStops with
  | [] => [(tripId, [st])]
  | (k, v) :: r =>
      if decide (k = tripId) then (k, (v ++ [st])%list) :: r
      else (k, v) :: pushStop tripId st r
  end.

(** Body of the loop over [stop_times.txt] lines (the line is not trimmed). *)
Definition stopTimesRow (idx : StopTimesIdx) (activeTrips : gset field)
    (validStopCodes : gset string)
    (tripStops : list (field * list StopTime)) (line : string)
    : Error + list (field * list StopTime) :=
  if isEmpty line then inr tripStops else
  let cols := split COMMA line in
  let tripId := at_ cols (st_trip idx) in
  if bool_decide (tripId ∈ activeTrips) then
    match cleanId (at_ cols (st_stop idx)) with
    | inl e => inl e
    | inr stopId =>
        if bool_decide (stopId ∈ validStopCodes) then
          inr (pushStop tripId
                 {| trip_id := tripId;
                    arrival_time := "";
                    departure_time := at_ cols (st_dep idx);
                    stop_id := stopId;
                    stop_sequence := parseInt (at_ cols (st_seq idx)) |}
                 tripStops)
        else inr tripStops
    end
  else inr tripStops.

(** A loop whose body may throw. *)
Fixpoint foldE {S X} (f : S -> X -> Error + S) (l : list X) (s : S) : Error + S :=
  match l with
  | [] => inr s
  | x :: r => match f s x with inl e => inl e | inr s' => foldE f r s' end
  end.

Definition stopTimesPass (activeTrips : gset field) (validStopCodes : gset string)
    (stopTimesTxt : string) : Error + list (field * list StopTime) :=
  let stLines := split LF stopTimesTxt in
  let stIdx := stopTimesIdx (headerOf stLines) in
  foldE (stopTimesRow stIdx activeTrips validStopCodes) (tl stLines) [].

(** ** Step 5: grouping into directions *)

(** [stops.forEach(s => { stopsMap[s.stop_id] = s.departure_time.substring(0, 5) })]:
    a later stop with the same code overwrites the earlier one, and
    [substring] on an undefined departure time throws. *)
Definition stopsMapStep (stopsMap : gmap string string) (s : StopTime)
    : Error + gmap string string :=
  match departure_time s with
  | Some dep => inr (<[ stop_id s := substring0 5 dep ]> stopsMap)
  | None => inl TypeError
  end.

Definition seqCompare (a b : StopTime) : option Z :=
  numSub (stop_sequence a) (stop_sequence b).

(** Callback of [tripStops.forEach]: [acc] holds the two arrays
    [(toBrinkola, toIrun)] built so far. *)
Definition classifyTrip (codeToOrder : gmap string Z)
    (acc : list ParsedTrip * list ParsedTrip) (entry : field * list StopTime)
    : Error + (list ParsedTrip * list ParsedTrip) :=
  let tripId := entry.1 in
  let stops := sortBy seqCompare entry.2 in
  match stops with
  | firstStop :: _ :: _ =>
      let lastStop := List.last stops firstStop in
      match codeToOrder !! stop_id firstStop, codeToOrder !! stop_id lastStop with
      | Some firstOrder, Some lastOrder =>
          match foldE stopsMapStep stops ∅ with
          | inl e => inl e
          | inr stopsMap =>
              match departure_time firstStop with
              | Some dep =>
                  let parsedTrip :=
                    {| id := tripId;
                       stops := stopsMap;
                       firstStopOrder := firstOrder;
                       lastStopOrder := lastOrder;
                       departureFromOrigin := dep |} in
                  if firstOrder <? lastOrder
                  then inr ((acc.1 ++ [parsedTrip])%list, acc.2)
                  else inr (acc.1, (acc.2 ++ [parsedTrip])%list)
              | None => inl TypeError  (* the loop above has thrown already *)
              end
          end
      | _, _ => inr acc   (* firstOrder === undefined || lastOrder === undefined *)
      end
  | _ => inr acc          (* stops.length < 2 *)
  end.

Definition classifyAll (codeToOrder : gmap string Z)
    (tripStops : list (field * list StopTime))
    : Error + (list ParsedTrip * list ParsedTrip) :=
  foldE (classifyTrip codeToOrder) tripStops ([], []).

(** ** The pipeline, with its progress trace *)

Definition M (A : Type) : Type := (list string * (Error + A))%type.

Definition ret {A} (a : A) : M A := ([], inr a).
Definition throw {A} (e : Error) : M A := ([], inl e).
Definition onProgress (msg : string) : M unit := ([msg], inr tt).
Definition lift {A} (r : Error + A) : M A := ([], r).

Definition bind {A B} (m : M A) (k : A -> M B) : M B :=
  match m.2 with
  | inl e => (m.1, inl e)
  | inr a => ((m.1 ++ (k a).1)%list, (k a).2)
  end.

Notation "'let!' x ':=' m 'in' k" := (bind m (fun x => k))
  (at level 10, x pattern, m at level 100, k at level 200).

Definition showNat (n : nat) : string := NilEmpty.string_of_uint (Nat.to_uint n).

(** A value interpolated in a template literal. *)
Definition showField (x : field) : string := default "undefined" x.

(** [readFile]: [null] when the archive has no such member. *)
Definition readFile (content : gmap string string) (filename : string)
    : option string := content !! filename.

Section Pipeline.

(** [String.prototype.localeCompare] is the platform's collation: negative,
    zero or positive. *)
Variable localeCompare : string -> string -> Z.

Definition timeCompare (a b : ParsedTrip) : option Z :=
  Some (localeCompare (departureFromOrigin a) (departureFromOrigin b)).

(** [parseGTFS], from the loaded archive and the result of [getDateInfo]. *)
Definition parseGTFS (content : gmap string string) (d : DateInfo) : M Result :=
  let! _ := onProgress ("Filtrando para fecha: " ++ formattedDate d ++ " ("
                        ++ showField (dayName d) ++ ")...") in
  (* 1. relevant stop IDs *)
  let validStopCodes := mkValidStopCodes GIPUZKOA_STATIONS in
  let codeToOrder := mkCodeToOrder GIPUZKOA_STATIONS in
  (* 2. valid service IDs for the selected date *)
  let! _ := onProgress "Analizando calendario y excepciones..." in
  let activeServices :=
    resolveServices d (readFile content "calendar.txt")
                      (readFile content "calendar_dates.txt") in
  if (size activeServices =? 0)%nat then throw (NoActiveService (formattedDate d)) else
  (* 3. trips of the active services *)
  let! _ := onProgress ("Procesando viajes activos (" ++ showNat (size activeServices)
                        ++ " servicios)...") in
  let tripsTxt := readFile content "trips.txt" in
  if negb (truthy tripsTxt) then throw (MissingFile "trips.txt") else
  let activeTrips := tripsPass activeServices (default "" tripsTxt) in
  (* 4. stop times *)
  let! _ := onProgress "Leyendo horarios..." in
  let stopTimesTxt := readFile content "stop_times.txt" in
  if negb (truthy stopTimesTxt) then throw (MissingFile "stop_times.txt") else
  let! tripStops :=
    lift (stopTimesPass activeTrips validStopCodes (default "" stopTimesTxt)) in
  (* 5. result arrays *)
  let! _ := onProgress "Organizando direcciones..." in
  let! both := lift (classifyAll codeToOrder tripStops) in
  ret {| toBrinkola := sortBy timeCompare both.1;
         toIrun := sortBy timeCompare both.2;
         dateUsed := formattedDate d |}.

End Pipeline.

(** Joining lines with LF, to write down feed texts. *)
Fixpoint unlines (l : list string) : string :=
  match l with
  | [] => ""
  | [x] => x
  | x :: r => x ++ String LF (unlines r)
  end.

(** Plain code-unit comparison as a collation. *)
Definition codeUnitCompare (a b : string) : Z :=
  match String.compare a b with Lt => -1 | Eq => 0 | Gt => 1 end.

(** ** [getDateInfo] *)

Definition digitChar (k : Z) : ascii := ascii_of_N (Z.to_N (48 + k)).

(** The decimal digits of [n >= 0] written in front of [acc]; [fuel] bounds
    their number. *)
Fixpoint showDigits (fuel : nat) (n : Z) (acc : string) : string :=
  match fuel with
  | O => acc
  | S f =>
      let acc' := String (digitChar (n mod 10)) acc in
      if n <? 10 then acc' else showDigits f (n / 10) acc'
  end.

(** [String(n)] for an integer [n] (of magnitude below 10^21, where
    JavaScript still prints all the digits): a minus sign for a negative
    number, then the decimal digits without leading zero. A number has at
    most [1 + log2] digits. *)
Definition showZ (n : Z) : string :=
  if n <? 0 then String "-" (showDigits (S (Z.to_nat (Z.log2 (- n)))) (- n) "")
  else showDigits (S (Z.to_nat (Z.log2 n))) n "".

Fixpoint fillStart (n : nat) (c : ascii) (s : string) : string :=
  match n with
  | O => s
  | S k => String c (fillStart k c s)
  end.

(** [s.padStart(targetLength, c)] with a one-character filler. *)
Definition padStart (targetLength : nat) (c : ascii) (s : string) : string :=
  fillStart (targetLength - String.length s) c s.

Definition days : list string :=
  ["sunday"; "monday"; "tuesday"; "wednesday"; "thursday"; "friday"; "saturday"].

Section DateInfo.

(** [new Date(y, m, d).getDay()], the platform's local calendar: a day
    index, or [None] for NaN (invalid date). *)
Variable getDay : Z -> Z -> Z -> option Z.

(** [getDateInfo], from the three numbers [year], [month], [day] that
    [isoDateStr.split('-').map(Number)] yields, taken as integers. *)
Definition getDateInfo (year month day : Z) : DateInfo :=
  let yyyymmdd :=
    showZ year ++ padStart 2 "0" (showZ month) ++ padStart 2 "0" (showZ day) in
  let formatted :=
    padStart 2 "0" (showZ day) ++ "/" ++ padStart 2 "0" (showZ month) ++ "/"
    ++ showZ year in
  let dayIndex := getDay year (month - 1) day in
  {| dateStr := yyyymmdd;
     dayName := match dayIndex with Some i => at_ days i | None => None end;
     formattedDate := formatted |}.

End DateInfo.

(** ** [generatePDF] *)

(** What [generateTable] hands to the table renderer. *)
Record PdfTable := {
  tableTitle : string;
  tableDate : string;            (* the text after "Fecha de circulacion: " *)
  headRow : list string;
  bodyRows : list (list string)
}.

(** [trip.stops[st.codigo] || '-']: the dash stands for a missing entry and
    for an empty time. (For a code that names a property of
    [Object.prototype] the lookup would find that property; no station code
    does.) *)
Definition cellOf (trip : ParsedTrip) (st : StationDef) : string :=
  match stops trip !! codigo st with
  | Some time => if isEmpty time then "-" else time
  | None => "-"
  end.

Definition generateTable (title : string) (trips : list ParsedTrip)
    (stations : list StationDef) (date : string) : PdfTable :=
  {| tableTitle := title;
     tableDate := date;
     headRow := estacion <$> stations;
     bodyRows := (fun trip => cellOf trip <$> stations) <$> trips |}.

(** [s.replace(/\//g, '-')] *)
Fixpoint replaceSlashes (s : string) : string :=
  match s with
  | EmptyString => EmptyString
  | String c r => String (if Ascii.eqb c "/" then "-"%char else c) (replaceSlashes r)
  end.

(** [generatePDF]: the two tables in page order and the name the document
    is saved under. Page layout and styling belong to the PDF library. *)
Definition generatePDF (toBrinkola toIrun : list ParsedTrip) (date : string)
    : list PdfTable * string :=
  let stationsToBrinkola := GIPUZKOA_STATIONS in
  let stationsToIrun := rev GIPUZKOA_STATIONS in
  ([generateTable "Horarios: Irun -> Brinkola" toBrinkola stationsToBrinkola date;
    generateTable "Horarios: Brinkola -> Irun" toIrun stationsToIrun date],
   "Cercanias_Gipuzkoa_" ++ replaceSlashes date ++ ".pdf").

(** * Vocabulary of the statements *)

(** Plain lexicographic order on code units. *)
Definition lexLe (a b : string) : Prop := String.compare a b <> Gt.

(** The header of a feed text, and its data rows: the lines after the first
    that are not blank once trimmed, cut at the commas. *)
Definition headersOf (txt : string) : list string := headerOf (split LF txt).

Definition dataRows (txt : string) : list (list string) :=
  split COMMA <$> filter (fun l => isEmpty l = false) (trim <$> tl (split LF txt)).

(** The cell of a row under a named column. *)
Definition column (headers cols : list string) (name : string) : field :=
  at_ cols (indexOf headers (Some name)).

(** What a calendar line contributes. *)
Definition calendarQualifies (idx : CalendarIdx) (date : string) (cols : list string)
    : Prop :=
  at_ cols (cal_day idx) = Some "1"
  /\ exists st en, at_ cols (cal_start idx) = Some st
                /\ at_ cols (cal_end idx) = Some en
                /\ lexLe st date /\ lexLe date en.

(** What a line of calendar_dates.txt says about service [s] on the target
    date: [Some true] for an exception of type "1", [Some false] for type
    "2", [None] when the line is blank, is for another date or service, or
    has another type. *)
Definition rowDecides (idx : DatesIdx) (date : string) (s : field) (raw : string)
    : option bool :=
  let cols := split COMMA (trim raw) in
  if isEmpty (trim raw) then None
  else if js_eq (at_ cols (ex_date idx)) date
          && bool_decide (at_ cols (ex_service idx) = s)
  then if js_eq (at_ cols (ex_type idx)) "1" then Some true
       else if js_eq (at_ cols (ex_type idx)) "2" then Some false
       else None
  else None.

(** Membership of [s] after a run of lines, from its membership before. *)
Definition verdict (idx : DatesIdx) (date : string) (s : field)
    (lines : list string) (before : bool) : bool :=
  fold_left (fun b raw => default b (rowDecides idx date s raw)) lines before.

Definition exceptionLines (txt : string) : list string := tl (split LF txt).

(** The stages of the pipeline on an archive. *)
Definition activeServicesOf (content : gmap string string) (d : DateInfo) : gset field :=
  resolveServices d (readFile content "calendar.txt")
                    (readFile content "calendar_dates.txt").

Definition activeTripsOf (content : gmap string string) (d : DateInfo) : gset field :=
  tripsPass (activeServicesOf content d) (default "" (readFile content "trips.txt")).

Definition tripStopsOf (content : gmap string string) (d : DateInfo)
    : Error + list (field * list StopTime) :=
  stopTimesPass (activeTripsOf content d) (mkValidStopCodes GIPUZKOA_STATIONS)
                (default "" (readFile content "stop_times.txt")).

(** The five progress messages, in the order of the calls. *)
Definition msgDate (d : DateInfo) : string :=
  "Filtrando para fecha: " ++ formattedDate d ++ " (" ++ showField (dayName d) ++ ")...".
Definition msgCalendar : string := "Analizando calendario y excepciones...".
Definition msgTrips (n : nat) : string :=
  "Procesando viajes activos (" ++ showNat n ++ " servicios)...".
Definition msgStopTimes : string := "Leyendo horarios...".
Definition msgDirections : string := "Organizando direcciones...".

(** The groups of [tripStops]: keys are distinct, no group is empty, and
    every stop event of every group satisfies [P]. *)
Definition groupsInv (P : StopTime -> Prop) (groups : list (field * list StopTime))
    : Prop :=
  NoDup groups.*1 /\ Forall (fun g => g.2 <> [] /\ Forall P g.2) groups.

(** [t] is the trip built from the group [evs] of trip [k]: the group has at
    least two stop events; once sorted by sequence, its first and last
    events give the two corridor positions and the sort key; the mapping is
    the one filled from the sorted events. *)
Definition tripOf (codeToOrder : gmap string Z) (k : field) (evs : list StopTime)
    (t : ParsedTrip) : Prop :=
  (2 <= length evs)%nat /\ id t = k
  /\ exists f l, head (sortBy seqCompare evs) = Some f
      /\ last (sortBy seqCompare evs) = Some l
      /\ codeToOrder !! stop_id f = Some (firstStopOrder t)
      /\ codeToOrder !! stop_id l = Some (lastStopOrder t)
      /\ departure_time f = Some (departureFromOrigin t)
      /\ foldE stopsMapStep (sortBy seqCompare evs) ∅ = inr (stops t).

(** State of the two arrays once the groups [processed] have been visited. *)
Definition classified (c2o : gmap string Z) (processed : list (field * list StopTime))
    (acc : list ParsedTrip * list ParsedTrip) : Prop :=
  (forall t, t ∈ acc.1 -> firstStopOrder t < lastStopOrder t)
  /\ (forall t, t ∈ acc.2 -> ~ firstStopOrder t < lastStopOrder t)
  /\ (forall t, t ∈ (acc.1 ++ acc.2)%list ->
        exists evs, (id t, evs) ∈ processed /\ tripOf c2o (id t) evs t)
  /\ NoDup (id <$> (acc.1 ++ acc.2)%list).

Definition isDigit (c : ascii) : bool :=
  ((48 <=? N_of_ascii c)%N && (N_of_ascii c <=? 57)%N).

(** Zero-padded HH:MM:SS (hours may be 24 or more). *)
Definition isTime (s : string) : bool :=
  match s with
  | String h1 (String h2 (String c1 (String m1 (String m2
      (String c2 (String s1 (String s2 EmptyString))))))) =>
      isDigit h1 && isDigit h2 && Ascii.eqb c1 ":" && isDigit m1 && isDigit m2
      && Ascii.eqb c2 ":" && isDigit s1 && isDigit s2
  | _ => false
  end.

(** Non-decreasing order of the sort keys. *)
Definition keyLe (a b : ParsedTrip) : Prop :=
  lexLe (departureFromOrigin a) (departureFromOrigin b).

(** What can be read off a trip: identifier, number of entries of the
    station-to-time mapping, positions, sort key. *)
Definition summary (t : ParsedTrip) : field * nat * Z * Z * string :=
  (id t, size (stops t), firstStopOrder t, lastStopOrder t, departureFromOrigin t).

(** The data lines of a feed text as the trips and stop-times loops see
    them: raw, not trimmed. *)
Definition rawLines (txt : string) : list string := tl (split LF txt).

(** The stop event a stop_times.txt line contributes, if any: the line is
    not empty, its trip is active and its trimmed stop cell is a corridor
    code. *)
Definition rowEvent (idx : StopTimesIdx) (activeTrips : gset field)
    (valid : gset string) (line : string) : option StopTime :=
  if isEmpty line then None
  else if bool_decide (at_ (split COMMA line) (st_trip idx) ∈ activeTrips) then
    match at_ (split COMMA line) (st_stop idx) with
    | Some raw =>
        if bool_decide (trim raw ∈ valid) then
          Some {| trip_id := at_ (split COMMA line) (st_trip idx);
                  arrival_time := "";
                  departure_time := at_ (split COMMA line) (st_dep idx);
                  stop_id := trim raw;
                  stop_sequence := parseInt (at_ (split COMMA line) (st_seq idx)) |}
        else None
    | None => None
    end
  else None.

(** A line on which the stop-times loop throws: a non-empty line of an
    active trip without a stop cell. *)
Definition rowThrows (idx : StopTimesIdx) (activeTrips : gset field)
    (line : string) : Prop :=
  isEmpty line = false
  /\ at_ (split COMMA line) (st_trip idx) ∈ activeTrips
  /\ at_ (split COMMA line) (st_stop idx) = None.

(** [tripStops.get(k)], an absent key read as the empty group. *)
Fixpoint groupOf (k : field) (tripStops : list (field * list StopTime))
    : list StopTime :=
  match tripStops with
  | [] => []
  | (k', v) :: r => if decide (k' = k) then v else groupOf k r
  end.

(** The stop events that survive the filters of the stop-times loop, in
    file order. *)
Definition survivingEvents (activeTrips : gset field) (valid : gset string)
    (txt : string) : list StopTime :=
  omap (rowEvent (stopTimesIdx (headersOf txt)) activeTrips valid) (rawLines txt).

(** Order of two stop events whose sequence numbers are numbers. *)
Definition seqLe (a b : StopTime) : Prop :=
  exists x y, stop_sequence a = Some x /\ stop_sequence b = Some y /\ x <= y.

(** The trip identifiers whose group has at least two stop events, in the
    order of the groups. *)
Definition listedKeys (groups : list (field * list StopTime)) : list field :=
  (filter (fun g => (2 <= length g.2)%nat) groups).*1.

(** Every stop event of every group has a corridor position. *)
Definition groupsLocated (c2o : gmap string Z) (groups : list (field * list StopTime))
    : Prop :=
  forall k evs e, (k, evs) ∈ groups -> e ∈ evs -> is_Some (c2o !! stop_id e).

(** A group on which classification throws: at least two stop events, one
    of them without a departure time. *)
Definition groupThrows (g : field * list StopTime) : Prop :=
  (2 <= length g.2)%nat /\ exists e, e ∈ g.2 /\ departure_time e = None.

(** How many of the five progress messages an outcome has behind it. *)
Definition stageOf (content : gmap string string) (d : DateInfo)
    (outcome : Error + Result) : nat :=
  match outcome with
  | inl (NoActiveService _) => 2
  | inl (MissingFile f) => if String.eqb f "trips.txt" then 3 else 4
  | inl TypeError => match tripStopsOf content d with inl _ => 4 | inr _ => 5 end
  | inr _ => 5
  end.

(** The text of stop_times.txt as the loop reads it. *)
Definition stopTimesText (content : gmap string string) : string :=
  default "" (readFile content "stop_times.txt").

(** Strings made of white space only. *)
Fixpoint allWhite (s : string) : bool :=
  match s with
  | EmptyString => true
  | String c r => isWhiteSpace c && allWhite r
  end.

(** What may follow the digits of a number for [parseInt] to stop there
    without reading a hexadecimal prefix: nothing, or a character that is
    neither a decimal digit nor [x] nor [X]. *)
Definition stopsNumber (rest : string) : bool :=
  match rest with
  | EmptyString => true
  | String c _ =>
      negb (isDigit c) && negb (Ascii.eqb c "x") && negb (Ascii.eqb c "X")
  end.

(** A number below 100 on two digits, a number below 10000 on four. *)
Definition twoDigits (n : Z) : string :=
  String (digitChar (n / 10)) (String (digitChar (n mod 10)) "").

Definition fourDigits (n : Z) : string :=
  String (digitChar (n / 1000)) (String (digitChar (n / 100 mod 10))
    (String (digitChar (n / 10 mod 10)) (String (digitChar (n mod 10)) ""))).

(** Calendar order on (year, month, day). *)
Definition dateLe (y1 m1 d1 y2 m2 d2 : Z) : Prop :=
  y1 < y2 \/ (y1 = y2 /\ (m1 < m2 \/ (m1 = m2 /\ d1 <= d2))).

(** A text written with the given decimal digits, and its value. *)
Fixpoint digitsStr (ds : list Z) : string :=
  match ds with
  | [] => ""
  | k :: r => String (digitChar k) (digitsStr r)
  end.

Fixpoint digitsVal (ds : list Z) : Z :=
  match ds with
  | [] => 0
  | k :: r => k * 10 ^ Z.of_nat (length r) + digitsVal r
  end.

(** A stop event whose sequence is a number the code holds exactly: an
    integer of magnitude at most 2^53. On such events the comparator of the
    stop sort is consistent and the sorted order is the same on every
    engine. *)
Definition safeSequence (e : StopTime) : bool :=
  match stop_sequence e with
  | Some n => (- 2 ^ 53 <=? n) && (n <=? 2 ^ 53)
  | None => false
  end.

(** [f] comes first in sequence order among [evs]: no event has a smaller
    sequence, and those with the same sequence come after it in [evs]. *)
Definition firstInSequence (evs : list StopTime) (f : StopTime) : Prop :=
  exists pre post n, evs = (pre ++ f :: post)%list /\ stop_sequence f = Some n
    /\ (forall e m, e ∈ pre -> stop_sequence e = Some m -> n < m)
    /\ (forall e m, e ∈ post -> stop_sequence e = Some m -> n <= m).

(** [l] comes last in sequence order among [evs]. *)
Definition lastInSequence (evs : list StopTime) (l : StopTime) : Prop :=
  exists pre post n, evs = (pre ++ l :: post)%list /\ stop_sequence l = Some n
    /\ (forall e m, e ∈ pre -> stop_sequence e = Some m -> m <= n)
    /\ (forall e m, e ∈ post -> stop_sequence e = Some m -> m < n).

(** The distinct elements of a list in the order of their first
    occurrences. *)
Fixpoint firstOccurrences (l : list field) : list field :=
  match l with
  | [] => []
  | k :: r => k :: filter (fun k' => k' <> k) (firstOccurrences r)
  end.

(** * Feeds used as concrete inputs *)

Module Feed.

(** Monday 3 June 2024. *)
Definition monday : DateInfo :=
  {| dateStr := "20240603"; dayName := Some "monday"; formattedDate := "03/06/2024" |}.

Definition calendar : string :=
  unlines ["service_id,monday,tuesday,start_date,end_date";
           "S1,1,0,20240101,20241231"].

Definition trips : string :=
  unlines ["route_id,service_id,trip_id"; "R,S1,T1"; "R,S1,T2"].

(** T1 runs Irun -> Brinkola, T2 the other way. *)
Definition stopTimes : string :=
  unlines ["trip_id,departure_time,stop_id,stop_sequence";
           "T1,08:00:00,11600,1"; "T1,10:30:00,11305,2";
           "T2,07:00:00,11305,1"; "T2,07:10:00,11306,2"; "T2,07:30:00,11600,5"].

Definition archive (cal tr st : string) : gmap string string :=
  <["calendar.txt" := cal]> (<["trips.txt" := tr]> (<["stop_times.txt" := st]> ∅)).

Definition full : gmap string string := archive calendar trips stopTimes.

(** What [parseGTFS] returns on [full]. *)
Definition fullResult : Result :=
  match (parseGTFS codeUnitCompare full monday).2 with
  | inr r => r
  | inl _ => {| toBrinkola := []; toIrun := []; dateUsed := "" |}
  end.

(** calendar.txt only. *)
Definition calendarOnly : gmap string string := {["calendar.txt" := calendar]}.


(** Stop sequences that are not numbers. *)
Definition stopTimesBadSeq : string :=
  unlines ["trip_id,departure_time,stop_id,stop_sequence";
           "T1,08:00:00,11600,x"; "T1,10:30:00,11305,"].

(** T1 calls twice at Irun and nowhere else in the corridor. *)
Definition stopTimesSameStop : string :=
  unlines ["trip_id,departure_time,stop_id,stop_sequence";
           "T1,08:00:00,11600,1"; "T1,09:00:00,11600,2"].

(** Two exceptions for S1 on the target date, an addition then a removal. *)
Definition calendarDates : string :=
  unlines ["service_id,date,exception_type";
           "S1,20240603,1"; "S2,20240603,1"; "S1,20240603,2"; "S1,20240604,1"].

(** Eight active trips and one inactive. Outbound: A (after midnight), B
    and C (same departure, C first in the file), F (twice at Irun, its lines
    out of sequence order). Inbound: H (after midnight), E (lines out of
    sequence order), D. G has a single stop inside the corridor. *)
Definition tripsBusy : string :=
  unlines ["route_id,service_id,trip_id"; "R,S1,A"; "R,S1,B"; "R,S1,C"; "R,S1,D";
           "R,S1,E"; "R,S1,F"; "R,S1,G"; "R,S1,H"; "R,S9,Z"].

Definition stopTimesBusy : string :=
  unlines ["trip_id,departure_time,stop_id,stop_sequence";
           "A,25:10:00,11600,1"; "H,24:05:00,11306,1"; "C,08:00:00,11600,1";
           "B,08:00:00,11511,1"; "A,25:40:00,11305,3"; "A,25:20:00,71801,2";
           "E,07:30:00,11600,3"; "B,09:30:00,11305,2"; "C,09:40:00,11305,2";
           "E,06:00:00,11305,1"; "E,06:10:00,11306,2"; "H,24:40:00,11600,2";
           "D,24:30:00,11600,2"; "D,23:50:00,11305,1";
           "F,10:05:00,11600,2"; "F,10:00:00,11600,1"; "F,10:20:00,11305,3";
           "G,12:00:00,11600,1"; "G,12:30:00,71801,2"; "Z,05:00:00,11600,1";
           "Z,05:30:00,11305,2"].

Definition busy : gmap string string := archive calendar tripsBusy stopTimesBusy.

(** What [parseGTFS] returns on [busy]. *)
Definition busyResult : Result :=
  match (parseGTFS codeUnitCompare busy monday).2 with
  | inr r => r
  | inl _ => {| toBrinkola := []; toIrun := []; dateUsed := "" |}
  end.

End Feed.

(** * Properties *)

(** ** Lemmas on the primitives *)

Lemma indexOfFrom_elem i l (x : string) :
  0 <= i -> x ∈ l -> indexOfFrom i l (Some x) <> -1.
Proof.
  revert i; induction l as [|h t IH]; intros i Hi Hx; simpl.
  - by apply elem_of_nil in Hx.
  - destruct (decide (Some h = Some x)); [lia|].
    apply elem_of_cons in Hx as [->|Hx]; [done|].
    apply IH; [lia | done].
Qed.

Lemma indexOf_elem l (x : string) : x ∈ l -> indexOf l (Some x) <> -1.
Proof. apply indexOfFrom_elem; lia. Qed.

Lemma indexOfFrom_not_elem i l (x : string) :
  x ∉ l -> indexOfFrom i l (Some x) = -1.
Proof.
  revert i; induction l as [|h t IH]; intros i Hx; simpl; [done|].
  apply not_elem_of_cons in Hx as [Hne Hx].
  destruct (decide (Some h = Some x)) as [[= ->]|]; [done|].
  by apply IH.
Qed.

Lemma indexOf_not_elem l (x : string) : x ∉ l -> indexOf l (Some x) = -1.
Proof. apply indexOfFrom_not_elem. Qed.


Lemma js_eq_true x s : js_eq x s = true <-> x = Some s.
Proof. unfold js_eq. apply bool_decide_eq_true. Qed.

Lemma compare_not_Gt_flip a b :
  String.compare a b <> Gt <-> String.ltb b a = false.
Proof.
  unfold String.ltb. rewrite (String.compare_antisym a b).
  destruct (String.compare b a); simpl; split; congruence.
Qed.

Lemma js_ge_spec a b : js_ge a b = true <-> exists s, b = Some s /\ lexLe s a.
Proof.
  unfold js_ge, js_lt, lexLe. destruct b as [s|].
  - rewrite negb_true_iff, <- compare_not_Gt_flip. naive_solver.
  - naive_solver.
Qed.

Lemma js_le_spec a b : js_le a b = true <-> exists s, b = Some s /\ lexLe a s.
Proof.
  unfold js_le, js_lt, lexLe. destruct b as [s|].
  - rewrite negb_true_iff, <- compare_not_Gt_flip. naive_solver.
  - naive_solver.
Qed.

(** ** The base-calendar pass *)

Lemma calendarRow_elem idx date A raw s :
  s ∈ calendarRow idx date A raw <->
  s ∈ A \/ (isEmpty (trim raw) = false
           /\ at_ (split COMMA (trim raw)) (cal_service idx) = s
           /\ calendarQualifies idx date (split COMMA (trim raw))).
Proof.
  unfold calendarRow, calendarQualifies.
  destruct (isEmpty (trim raw)) eqn:He; [naive_solver|].
  destruct (js_eq _ "1") eqn:H1; simpl.
  - apply js_eq_true in H1.
    destruct (js_ge date _) eqn:H2; simpl.
    + destruct (js_le date _) eqn:H3.
      * apply js_ge_spec in H2 as (st & Hst & Hle1).
        apply js_le_spec in H3 as (en & Hen & Hle2).
        rewrite elem_of_union, elem_of_singleton. naive_solver.
      * split; [by left|]. intros [?|(_ & _ & _ & st & en & _ & Hen & _ & Hle)]; [done|].
        assert (js_le date (at_ (split COMMA (trim raw)) (cal_end idx)) = true)
          by (apply js_le_spec; eauto).
        congruence.
    + split; [by left|]. intros [?|(_ & _ & _ & st & en & Hst & _ & Hle & _)]; [done|].
      assert (js_ge date (at_ (split COMMA (trim raw)) (cal_start idx)) = true)
        by (apply js_ge_spec; eauto).
      congruence.
  - split; [by left|]. intros [?|(_ & _ & Hd & _)]; [done|].
    apply js_eq_true in Hd. congruence.
Qed.

Lemma calendar_fold_elem idx date lines A s :
  s ∈ fold_left (calendarRow idx date) lines A <->
  s ∈ A \/ exists raw, raw ∈ lines /\ isEmpty (trim raw) = false
           /\ at_ (split COMMA (trim raw)) (cal_service idx) = s
           /\ calendarQualifies idx date (split COMMA (trim raw)).
Proof.
  revert A; induction lines as [|l ls IH]; intros A; simpl.
  - split; [by left|]. intros [?|(raw & Hin & _)]; [done|]. by apply elem_of_nil in Hin.
  - rewrite IH, calendarRow_elem. split.
    + intros [[?|?]|(raw & Hin & ?)]; [by left| |].
      * right. exists l. split; [apply list_elem_of_here | done].
      * right. exists raw. split; [by apply list_elem_of_further | done].
    + intros [?|(raw & Hin & ?)]; [by left; left|].
      apply elem_of_cons in Hin as [->|Hin]; [by left; right|].
      right. by exists raw.
Qed.

Lemma dataRows_elem txt cols :
  cols ∈ dataRows txt <->
  exists raw, raw ∈ tl (split LF txt) /\ isEmpty (trim raw) = false
              /\ cols = split COMMA (trim raw).
Proof.
  unfold dataRows. rewrite list_elem_of_fmap. split.
  - intros (line & -> & Hin). apply list_elem_of_filter in Hin as [He Hin].
    apply list_elem_of_fmap in Hin as (raw & -> & Hin). eauto.
  - intros (raw & Hin & He & ->). exists (trim raw). split; [done|].
    apply list_elem_of_filter. split; [done|].
    apply list_elem_of_fmap. eauto.
Qed.

(** C1. For a calendar.txt text whose header has the columns service_id, the
    target weekday, start_date and end_date, the base-calendar pass leaves a
    service identifier in the active set exactly when it was there before
    (the pass starts from the empty set) or some data row carries that
    identifier, has "1" in the weekday column and has
    start_date <= targetDate <= end_date in plain lexicographic order. *)
Theorem calendar_pass_membership (date dn txt : string) (A : gset field) (s : field) :
  "service_id" ∈ headersOf txt -> dn ∈ headersOf txt ->
  "start_date" ∈ headersOf txt -> "end_date" ∈ headersOf txt ->
  s ∈ calendarPass date (Some dn) txt A <->
  s ∈ A \/ exists cols, cols ∈ dataRows txt
      /\ column (headersOf txt) cols "service_id" = s
      /\ column (headersOf txt) cols dn = Some "1"
      /\ exists st en, column (headersOf txt) cols "start_date" = Some st
                    /\ column (headersOf txt) cols "end_date" = Some en
                    /\ lexLe st date /\ lexLe date en.
Proof.
  intros Hs Hd Hst Hen. unfold calendarPass, headersOf in *.
  assert (calendarIdxOk (calendarIdx (headerOf (split LF txt)) (Some dn)) = true) as ->.
  { unfold calendarIdxOk, calendarIdx; simpl.
    apply indexOf_elem in Hs, Hd, Hst, Hen.
    repeat (apply andb_true_intro; split); apply negb_true_iff, Z.eqb_neq; done. }
  rewrite calendar_fold_elem. unfold column, calendarQualifies; simpl.
  split.
  - intros [?|(raw & Hin & He & Hsv & Hq)]; [by left|].
    right. exists (split COMMA (trim raw)). split; [|done].
    apply dataRows_elem. eauto.
  - intros [?|(cols & Hin & Hq)]; [by left|].
    apply dataRows_elem in Hin as (raw & Hin & He & ->).
    right. exists raw. done.
Qed.

(** The pass started from the empty set, on the scenario of the spec. *)
Lemma calendar_pass_membership_witness :
  Some "S1" ∈ calendarPass "20240603" (Some "monday")
    (unlines ["service_id,monday,start_date,end_date"; "S1,1,20240101,20241231"]) ∅.
Proof.
  apply (calendar_pass_membership "20240603" "monday"
           (unlines ["service_id,monday,start_date,end_date"; "S1,1,20240101,20241231"])
           ∅ (Some "S1")).
  - vm_compute. set_solver.
  - vm_compute. set_solver.
  - vm_compute. set_solver.
  - vm_compute. set_solver.
  - right. exists ["S1"; "1"; "20240101"; "20241231"].
    split; [vm_compute; set_solver|].
    split; [reflexivity|]. split; [reflexivity|].
    exists "20240101", "20241231".
    split; [reflexivity|]. split; [reflexivity|].
    split; vm_compute; discriminate.
Defined.

(** ** The exception pass *)

Lemma exceptionRow_elem idx date A raw s :
  s ∈ exceptionRow idx date A raw <->
  match rowDecides idx date s raw with Some b => b = true | None => s ∈ A end.
Proof.
  unfold exceptionRow, rowDecides.
  destruct (isEmpty (trim raw)); [done|].
  destruct (js_eq (at_ _ (ex_date idx)) date); simpl; [|done].
  case_bool_decide as Hs.
  - destruct (js_eq _ "1"); [set_solver|].
    destruct (js_eq _ "2"); [set_solver|done].
  - destruct (js_eq _ "1"); [set_solver|].
    destruct (js_eq _ "2"); [set_solver|done].
Qed.

Lemma exception_fold_elem idx date lines A s :
  s ∈ fold_left (exceptionRow idx date) lines A <->
  verdict idx date s lines (bool_decide (s ∈ A)) = true.
Proof.
  unfold verdict. revert A; induction lines as [|l ls IH]; intros A; simpl.
  - by rewrite bool_decide_eq_true.
  - rewrite IH. f_equiv. f_equal.
    pose proof (exceptionRow_elem idx date A l s) as H.
    destruct (rowDecides idx date s l) as [b|]; simpl.
    + destruct b; [apply bool_decide_eq_true | apply bool_decide_eq_false];
        rewrite H; done.
    + by apply bool_decide_ext.
Qed.

Lemma verdict_app idx date s l1 l2 b :
  verdict idx date s (l1 ++ l2) b = verdict idx date s l2 (verdict idx date s l1 b).
Proof. apply fold_left_app. Qed.

Lemma verdict_silent idx date s lines b :
  (forall r, r ∈ lines -> rowDecides idx date s r = None) ->
  verdict idx date s lines b = b.
Proof.
  unfold verdict. revert b; induction lines as [|l ls IH]; intros b H; simpl; [done|].
  rewrite (H l) by apply list_elem_of_here. simpl.
  apply IH. intros r Hr. apply H. by apply list_elem_of_further.
Qed.

Lemma verdict_last idx date s pre raw post b0 b :
  rowDecides idx date s raw = Some b ->
  (forall r, r ∈ post -> rowDecides idx date s r = None) ->
  verdict idx date s (pre ++ raw :: post) b0 = b.
Proof.
  intros Hraw Hpost. rewrite verdict_app. unfold verdict at 1. simpl.
  rewrite Hraw. simpl. by apply verdict_silent.
Qed.

(** Once one line speaks about [s], what held before no longer matters. *)
Lemma verdict_overrides idx date s lines b1 b2 :
  (exists r, r ∈ lines /\ is_Some (rowDecides idx date s r)) ->
  verdict idx date s lines b1 = verdict idx date s lines b2.
Proof.
  intros (r & Hin & [b Hb]).
  apply list_elem_of_split in Hin as (l1 & l2 & ->).
  rewrite !verdict_app. unfold verdict at 2 4. simpl. by rewrite Hb.
Qed.

Lemma datesIdxOk_of_header txt :
  "service_id" ∈ headersOf txt -> "date" ∈ headersOf txt ->
  "exception_type" ∈ headersOf txt ->
  datesIdxOk (datesIdx (headersOf txt)) = true.
Proof.
  intros H1 H2 H3. unfold datesIdxOk, datesIdx; simpl.
  apply indexOf_elem in H1, H2, H3.
  repeat (apply andb_true_intro; split); apply negb_true_iff, Z.eqb_neq; done.
Qed.

Lemma exceptionPass_elem date txt A s :
  datesIdxOk (datesIdx (headersOf txt)) = true ->
  s ∈ exceptionPass date txt A <->
  verdict (datesIdx (headersOf txt)) date s (exceptionLines txt) (bool_decide (s ∈ A)) = true.
Proof.
  intros Hok. unfold exceptionPass, headersOf, exceptionLines in *.
  rewrite Hok. apply exception_fold_elem.
Qed.

(** C10. With the three columns in the header of calendar_dates.txt, the
    membership of a service after the exception pass is the one dictated by
    the last line that is an exception of type "1" or "2" for that service
    on the target date; without such a line it is the membership from
    before; and a line for another date, or with another type, changes
    nothing at all. *)
Theorem exception_last_row_decides (date txt : string) (A : gset field) (s : field) :
  "service_id" ∈ headersOf txt -> "date" ∈ headersOf txt ->
  "exception_type" ∈ headersOf txt ->
  (forall pre raw post b,
      exceptionLines txt = (pre ++ raw :: post)%list ->
      rowDecides (datesIdx (headersOf txt)) date s raw = Some b ->
      (forall r, r ∈ post -> rowDecides (datesIdx (headersOf txt)) date s r = None) ->
      (s ∈ exceptionPass date txt A <-> b = true))
  /\ ((forall r, r ∈ exceptionLines txt ->
          rowDecides (datesIdx (headersOf txt)) date s r = None) ->
      (s ∈ exceptionPass date txt A <-> s ∈ A))
  /\ (forall raw (B : gset field),
        column (headersOf txt) (split COMMA (trim raw)) "date" <> Some date
        \/ (column (headersOf txt) (split COMMA (trim raw)) "exception_type" <> Some "1"
            /\ column (headersOf txt) (split COMMA (trim raw)) "exception_type" <> Some "2") ->
        exceptionRow (datesIdx (headersOf txt)) date B raw = B).
Proof.
  intros H1 H2 H3.
  pose proof (datesIdxOk_of_header txt H1 H2 H3) as Hok.
  split; [|split].
  - intros pre raw post b Hsplit Hraw Hpost.
    rewrite (exceptionPass_elem _ _ _ _ Hok), Hsplit.
    by rewrite (verdict_last _ _ _ _ _ _ _ b Hraw Hpost).
  - intros Hnone. rewrite (exceptionPass_elem _ _ _ _ Hok).
    rewrite (verdict_silent _ _ _ _ _ Hnone). apply bool_decide_eq_true.
  - intros raw B Hrow. unfold exceptionRow, column, datesIdx in *; simpl in *.
    destruct (isEmpty (trim raw)); [done|].
    destruct (js_eq _ date) eqn:Hd; [|done].
    apply js_eq_true in Hd. destruct Hrow as [?|[Hn1 Hn2]]; [done|].
    destruct (js_eq _ "1") eqn:E1; [apply js_eq_true in E1; done|].
    destruct (js_eq _ "2") eqn:E2; [apply js_eq_true in E2; done|done].
Qed.

Lemma truthy_of_header txt (name : string) :
  name ∈ headersOf txt -> name <> "" -> truthy (Some txt) = true.
Proof.
  intros Hin Hne. destruct txt; [|done].
  vm_compute in Hin. apply list_elem_of_singleton in Hin. done.
Qed.

Lemma exceptionRow_idem (idx : DatesIdx) (date : string) (B : gset field) (raw : string) :
  exceptionRow idx date (exceptionRow idx date B raw) raw = exceptionRow idx date B raw.
Proof.
  unfold exceptionRow.
  destruct (isEmpty (trim raw)); [done|].
  destruct (js_eq (at_ _ (ex_date idx)) date); [|done].
  destruct (js_eq _ "1"); [set_solver|].
  destruct (js_eq _ "2"); [set_solver|done].
Qed.

(** C2. The active set is the exception pass run on the outcome of the
    whole base-calendar pass. Each exception line for the target date, when
    it is applied, puts its service in (type "1") or takes it out (type
    "2") whatever the set held before, and applying it twice is applying it
    once. A service with an exception line for the target date has the same
    final membership under every calendar.txt, matched by a weekly rule or
    not: in when its exception (the last one, should there be several) is
    of type "1", out when it is of type "2". *)
Theorem exceptions_override_base (d : DateInfo) (cal : option string)
    (exc : string) (s : field) :
  "service_id" ∈ headersOf exc -> "date" ∈ headersOf exc ->
  "exception_type" ∈ headersOf exc ->
  resolveServices d cal (Some exc)
    = exceptionPass (dateStr d) exc (resolveServices d cal None)
  /\ (forall raw (B : gset field),
        rowDecides (datesIdx (headersOf exc)) (dateStr d) s raw = Some true ->
        s ∈ exceptionRow (datesIdx (headersOf exc)) (dateStr d) B raw)
  /\ (forall raw (B : gset field),
        rowDecides (datesIdx (headersOf exc)) (dateStr d) s raw = Some false ->
        s ∉ exceptionRow (datesIdx (headersOf exc)) (dateStr d) B raw)
  /\ (forall raw (B : gset field),
        exceptionRow (datesIdx (headersOf exc)) (dateStr d)
          (exceptionRow (datesIdx (headersOf exc)) (dateStr d) B raw) raw
        = exceptionRow (datesIdx (headersOf exc)) (dateStr d) B raw)
  /\ ((exists r, r ∈ exceptionLines exc
         /\ is_Some (rowDecides (datesIdx (headersOf exc)) (dateStr d) s r)) ->
      forall cal', s ∈ resolveServices d cal (Some exc)
                   <-> s ∈ resolveServices d cal' (Some exc))
  /\ (forall pre raw post b,
        exceptionLines exc = (pre ++ raw :: post)%list ->
        rowDecides (datesIdx (headersOf exc)) (dateStr d) s raw = Some b ->
        (forall r, r ∈ post ->
           rowDecides (datesIdx (headersOf exc)) (dateStr d) s r = None) ->
        (s ∈ resolveServices d cal (Some exc) <-> b = true)).
Proof.
  intros H1 H2 H3.
  pose proof (datesIdxOk_of_header exc H1 H2 H3) as Hok.
  assert (Hres : forall c, resolveServices d c (Some exc)
                 = exceptionPass (dateStr d) exc (resolveServices d c None)).
  { intros c. unfold resolveServices. unfold whenPresent at 1.
    by rewrite (truthy_of_header exc "service_id" H1). }
  split; [apply Hres|].
  split; [intros raw B Hr; apply exceptionRow_elem; by rewrite Hr|].
  split.
  { intros raw B Hr Hin. apply exceptionRow_elem in Hin. by rewrite Hr in Hin. }
  split; [intros; apply exceptionRow_idem|].
  split.
  - intros Hex cal'. rewrite !Hres, !(exceptionPass_elem _ _ _ _ Hok).
    by rewrite (verdict_overrides _ _ _ _ _
                  (bool_decide (s ∈ resolveServices d cal' None)) Hex).
  - intros pre raw post b Hsplit Hraw Hpost.
    rewrite Hres, (exceptionPass_elem _ _ _ _ Hok), Hsplit.
    by rewrite (verdict_last _ _ _ _ _ _ _ b Hraw Hpost).
Qed.

(** ** The pipeline, stage by stage *)

Lemma parseGTFS_unfold lc content d :
  parseGTFS lc content d =
  if (size (activeServicesOf content d) =? 0)%nat
  then ([msgDate d; msgCalendar], inl (NoActiveService (formattedDate d)))
  else if negb (truthy (readFile content "trips.txt"))
  then ([msgDate d; msgCalendar; msgTrips (size (activeServicesOf content d))],
        inl (MissingFile "trips.txt"))
  else if negb (truthy (readFile content "stop_times.txt"))
  then ([msgDate d; msgCalendar; msgTrips (size (activeServicesOf content d));
         msgStopTimes], inl (MissingFile "stop_times.txt"))
  else match tripStopsOf content d with
       | inl e =>
           ([msgDate d; msgCalendar; msgTrips (size (activeServicesOf content d));
             msgStopTimes], inl e)
       | inr tripStops =>
           ([msgDate d; msgCalendar; msgTrips (size (activeServicesOf content d));
             msgStopTimes; msgDirections],
            match classifyAll (mkCodeToOrder GIPUZKOA_STATIONS) tripStops with
            | inl e => inl e
            | inr both =>
                inr {| toBrinkola := sortBy (timeCompare lc) both.1;
                       toIrun := sortBy (timeCompare lc) both.2;
                       dateUsed := formattedDate d |}
            end)
       end.
Proof.
  unfold parseGTFS, tripStopsOf, activeTripsOf.
  fold (activeServicesOf content d).
  fold (msgDate d). fold msgCalendar. fold (msgTrips (size (activeServicesOf content d))).
  fold msgStopTimes. fold msgDirections.
  generalize (mkValidStopCodes GIPUZKOA_STATIONS) as valid.
  generalize (mkCodeToOrder GIPUZKOA_STATIONS) as c2o.
  generalize (activeServicesOf content d) as A.
  intros A c2o valid.
  unfold bind, onProgress, throw, ret, lift. cbn [fst snd app].
  destruct (size A =? 0)%nat; [done|]. cbn [fst snd app].
  destruct (negb (truthy (readFile content "trips.txt"))); [done|]. cbn [fst snd app].
  destruct (negb (truthy (readFile content "stop_times.txt"))); [done|]. cbn [fst snd app].
  destruct (stopTimesPass _ _ _) as [e|groups]; [done|]. cbn [fst snd app].
  destruct (classifyAll c2o groups) as [e|both]; done.
Qed.

(** ** Progress checkpoints *)

(** C9, as stated, fails: a run that succeeds reports five messages. *)
Lemma progress_four_counterexample :
  (exists r, (parseGTFS codeUnitCompare Feed.full Feed.monday).2 = inr r)
  /\ length (parseGTFS codeUnitCompare Feed.full Feed.monday).1 = 5%nat
  /\ (parseGTFS codeUnitCompare Feed.full Feed.monday).1
     = ["Filtrando para fecha: 03/06/2024 (monday)...";
        "Analizando calendario y excepciones...";
        "Procesando viajes activos (1 servicios)...";
        "Leyendo horarios...";
        "Organizando direcciones..."].
Proof.
  split; [eexists; vm_compute; reflexivity|].
  split; vm_compute; reflexivity.
Qed.

(** C9, amended. A run that returns a result has reported exactly five
    messages, in this order: the date being filtered (before the archive is
    opened), then the start of calendar and exception resolution, of
    active-trip filtering, of stop-time reading and of direction
    classification. *)
Theorem progress_on_success lc (content : gmap string string) (d : DateInfo) (r : Result) :
  (parseGTFS lc content d).2 = inr r ->
  (parseGTFS lc content d).1
  = [msgDate d; msgCalendar; msgTrips (size (activeServicesOf content d));
     msgStopTimes; msgDirections].
Proof.
  rewrite parseGTFS_unfold.
  destruct (size _ =? 0)%nat; [done|].
  destruct (negb (truthy (readFile content "trips.txt"))); [done|].
  destruct (negb (truthy (readFile content "stop_times.txt"))); [done|].
  destruct (tripStopsOf content d); done.
Qed.

Lemma progress_on_success_witness :
  (parseGTFS codeUnitCompare Feed.full Feed.monday).1
  = [msgDate Feed.monday; msgCalendar;
     msgTrips (size (activeServicesOf Feed.full Feed.monday));
     msgStopTimes; msgDirections].
Proof.
  eapply (progress_on_success codeUnitCompare Feed.full Feed.monday).
  vm_compute. reflexivity.
Defined.

(** ** Missing trips.txt *)

(** C5, as stated, fails: with an empty active set the run stops on the
    no-active-service error before trips.txt is looked for. *)
Lemma missing_trips_counterexample :
  readFile (∅ : gmap string string) "trips.txt" = None
  /\ size (activeServicesOf ∅ Feed.monday) = 0%nat
  /\ (parseGTFS codeUnitCompare ∅ Feed.monday).2 = inl (NoActiveService "03/06/2024")
  /\ (parseGTFS codeUnitCompare ∅ Feed.monday).2 <> inl (MissingFile "trips.txt").
Proof.
  split; [reflexivity|]. split; [vm_compute; reflexivity|].
  split; [vm_compute; reflexivity|]. vm_compute. discriminate.
Qed.

(** C5, amended. When trips.txt is absent from the archive (or empty) and
    the active set resolved for the target date is not empty, the run fails
    with the missing-file error naming trips.txt; when the active set is
    empty it fails with the no-active-service error instead. *)
Theorem missing_trips (lc : string -> string -> Z) (content : gmap string string)
    (d : DateInfo) :
  truthy (readFile content "trips.txt") = false ->
  (parseGTFS lc content d).2
  = if (size (activeServicesOf content d) =? 0)%nat
    then inl (NoActiveService (formattedDate d))
    else inl (MissingFile "trips.txt").
Proof.
  intros Habs. rewrite parseGTFS_unfold, Habs.
  by destruct (size _ =? 0)%nat.
Qed.

Lemma missing_trips_witness :
  (parseGTFS codeUnitCompare Feed.calendarOnly Feed.monday).2
  = inl (MissingFile "trips.txt").
Proof.
  rewrite (missing_trips codeUnitCompare Feed.calendarOnly Feed.monday).
  - vm_compute. reflexivity.
  - vm_compute. reflexivity.
Defined.

(** ** Missing columns in trips.txt and stop_times.txt *)










(** ** Invariants of the loops *)

Lemma foldE_inv {S X} (I : S -> Prop) (f : S -> X -> Error + S) (l : list X) :
  (forall s x s', x ∈ l -> I s -> f s x = inr s' -> I s') ->
  forall s0 s, I s0 -> foldE f l s0 = inr s -> I s.
Proof.
  induction l as [|x l IH]; intros Hstep s0 s H0 Hrun; simpl in Hrun.
  - by inversion Hrun; subst.
  - destruct (f s0 x) as [e|s1] eqn:E; [done|].
    apply (IH (fun s x s' Hx => Hstep s x s' (list_elem_of_further _ _ _ Hx)) s1 s);
      [|done].
    apply (Hstep s0 x s1); [apply list_elem_of_here|done..].
Qed.

Lemma foldE_total {S X} (I : S -> Prop) (f : S -> X -> Error + S) (l : list X) :
  (forall s x, x ∈ l -> I s -> exists s', f s x = inr s' /\ I s') ->
  forall s0, I s0 -> exists s, foldE f l s0 = inr s /\ I s.
Proof.
  induction l as [|x l IH]; intros Hstep s0 H0; simpl.
  - by exists s0.
  - destruct (Hstep s0 x (list_elem_of_here _ _) H0) as (s1 & -> & H1).
    apply IH; [|done]. intros s y Hy. apply Hstep. by apply list_elem_of_further.
Qed.

Lemma insertBy_Permutation {A} (cmp : A -> A -> option Z) (x : A) (l : list A) :
  insertBy cmp x l ≡ₚ x :: l.
Proof.
  induction l as [|y t IH]; simpl; [done|].
  destruct (sortCompare cmp x y <=? 0); [done|].
  rewrite IH. apply Permutation_swap.
Qed.

Lemma sortBy_Permutation {A} (cmp : A -> A -> option Z) (l : list A) :
  sortBy cmp l ≡ₚ l.
Proof.
  unfold sortBy. induction l as [|x l IH]; simpl; [done|].
  by rewrite insertBy_Permutation, IH.
Qed.

Lemma sortBy_elem {A} (cmp : A -> A -> option Z) (l : list A) (x : A) :
  x ∈ sortBy cmp l <-> x ∈ l.
Proof. by rewrite sortBy_Permutation. Qed.

Lemma sortBy_length {A} (cmp : A -> A -> option Z) (l : list A) :
  length (sortBy cmp l) = length l.
Proof. by rewrite sortBy_Permutation. Qed.

Lemma pushStop_keys k st (m : list (field * list StopTime)) x :
  x ∈ (pushStop k st m).*1 <-> x = k \/ x ∈ m.*1.
Proof.
  induction m as [|[k' v] m IH]; simpl.
  - rewrite list_elem_of_singleton, elem_of_nil. naive_solver.
  - destruct (decide (k' = k)) as [->|Hne]; simpl.
    + rewrite elem_of_cons. naive_solver.
    + rewrite !elem_of_cons, IH. naive_solver.
Qed.

Lemma pushStop_inv (P : StopTime -> Prop) k st m :
  P st -> groupsInv P m -> groupsInv P (pushStop k st m).
Proof.
  intros Hst [Hnd Hall]. induction m as [|[k' v] m IH]; simpl.
  - split; [apply NoDup_singleton|].
    repeat constructor; done.
  - apply NoDup_cons in Hnd as [Hk' Hnd]. apply Forall_cons in Hall as [[Hv1 Hv2] Hall].
    simpl in *. destruct (decide (k' = k)) as [->|Hne]; simpl.
    + split; [by apply NoDup_cons|]. constructor; [|done]. simpl. split.
      * by destruct v.
      * apply Forall_app. split; [done|]. by constructor.
    + destruct (IH Hnd Hall) as [IH1 IH2]. split.
      * apply NoDup_cons. split; [|done]. rewrite pushStop_keys. naive_solver.
      * constructor; done.
Qed.

Lemma stopTimesRow_inv (P : StopTime -> Prop) (idx : StopTimesIdx)
    (activeTrips : gset field) (valid : gset string)
    (groups groups' : list (field * list StopTime)) (line : string) :
  (forall raw, isEmpty line = false ->
     at_ (split COMMA line) (st_stop idx) = Some raw -> trim raw ∈ valid ->
     P {| trip_id := at_ (split COMMA line) (st_trip idx);
          arrival_time := "";
          departure_time := at_ (split COMMA line) (st_dep idx);
          stop_id := trim raw;
          stop_sequence := parseInt (at_ (split COMMA line) (st_seq idx)) |}) ->
  groupsInv P groups ->
  stopTimesRow idx activeTrips valid groups line = inr groups' ->
  groupsInv P groups'.
Proof.
  intros HP Hinv. unfold stopTimesRow.
  destruct (isEmpty line); [by intros [= <-]|].
  case_bool_decide; [|by intros [= <-]].
  destruct (at_ _ (st_stop idx)) as [raw|] eqn:Hraw; simpl; [|done].
  case_bool_decide; [|by intros [= <-]].
  intros [= <-]. apply pushStop_inv; [|done]. by apply HP.
Qed.

Lemma groupsInv_nil P : groupsInv P [].
Proof. split; [apply NoDup_nil_2 | constructor]. Qed.

(** Every stop event kept by the stop-times pass calls at a corridor
    station. *)
Lemma stopTimesPass_valid (activeTrips : gset field) (valid : gset string)
    (txt : string) (groups : list (field * list StopTime)) :
  stopTimesPass activeTrips valid txt = inr groups ->
  groupsInv (fun e => stop_id e ∈ valid) groups.
Proof.
  unfold stopTimesPass.
  apply (foldE_inv (groupsInv (fun e => stop_id e ∈ valid))); [|apply groupsInv_nil].
  intros s line s' _ Hs Hrow.
  eapply stopTimesRow_inv; [|done..]. by intros raw _ _ Hv.
Qed.

(** ** The station table behind both lookups *)

Lemma codes_orders_agree (stations : list StationDef) (code : string) :
  code ∈ mkValidStopCodes stations <-> is_Some (mkCodeToOrder stations !! code).
Proof.
  unfold mkValidStopCodes, mkCodeToOrder.
  assert (H : forall (S0 : gset string) (m0 : gmap string Z),
             (code ∈ S0 <-> is_Some (m0 !! code)) ->
             code ∈ fold_left (fun acc s => {[ codigo s ]} ∪ acc) stations S0
             <-> is_Some (fold_left (fun acc s => <[ codigo s := orden s ]> acc)
                            stations m0 !! code)).
  { induction stations as [|s l IH]; intros S0 m0 H0; simpl; [done|].
    apply IH. rewrite elem_of_union, elem_of_singleton.
    destruct (decide (codigo s = code)) as [->|Hne].
    - rewrite lookup_insert_eq. split; [by eexists | by left].
    - rewrite lookup_insert_ne by done. naive_solver. }
  apply H. rewrite lookup_empty. split; [set_solver | by intros [? ?]].
Qed.

(** ** Classification of one group *)

Lemma last_List_last {A} (l : list A) (d : A) :
  l <> [] -> last l = Some (List.last l d).
Proof.
  induction l as [|x l IH]; [done|]. intros _.
  destruct l as [|y l]; [done|]. simpl in *. by apply IH.
Qed.

Lemma classifyTrip_short c2o acc k evs :
  (length evs < 2)%nat -> classifyTrip c2o acc (k, evs) = inr acc.
Proof.
  intros Hlen. unfold classifyTrip. simpl.
  pose proof (sortBy_length seqCompare evs) as Hl.
  destruct (sortBy seqCompare evs) as [|f [|g rest]]; simpl in *; [done|done|lia].
Qed.

Lemma classifyTrip_inr c2o acc k evs acc' :
  classifyTrip c2o acc (k, evs) = inr acc' ->
  acc' = acc
  \/ exists t, tripOf c2o k evs t
       /\ ((firstStopOrder t < lastStopOrder t /\ acc' = ((acc.1 ++ [t])%list, acc.2))
           \/ (~ firstStopOrder t < lastStopOrder t
               /\ acc' = (acc.1, (acc.2 ++ [t])%list))).
Proof.
  unfold classifyTrip. simpl.
  pose proof (sortBy_length seqCompare evs) as Hl.
  destruct (sortBy seqCompare evs) as [|f [|g rest]] eqn:Hs;
    [by intros [= <-]; left | by intros [= <-]; left |].
  destruct (c2o !! stop_id f) as [fo|] eqn:Hfo; [|by intros [= <-]; left].
  destruct (c2o !! stop_id (List.last (f :: g :: rest) f)) as [lo|] eqn:Hlo;
    [|by intros [= <-]; left].
  destruct (foldE stopsMapStep (f :: g :: rest) ∅) as [e|m] eqn:Hm; [done|].
  destruct (departure_time f) as [dep|] eqn:Hdep; [|done].
  set (t := {| id := k; stops := m; firstStopOrder := fo; lastStopOrder := lo;
               departureFromOrigin := dep |}).
  assert (Ht : tripOf c2o k evs t).
  { unfold tripOf. rewrite Hs.
    split; [rewrite <- Hl; simpl; lia|]. split; [done|].
    exists f, (List.last (f :: g :: rest) f). split; [done|].
    split; [by apply last_List_last|]. done. }
  destruct (fo <? lo) eqn:Hlt; intros [= <-]; right; exists t; (split; [done|]).
  - left. split; [by apply Z.ltb_lt | done].
  - right. split; [by apply Z.ltb_ge, Z.le_ngt in Hlt | done].
Qed.

Lemma stopsMap_dom (l : list StopTime) (m0 m : gmap string string) :
  foldE stopsMapStep l m0 = inr m ->
  forall c, c ∈ dom m <-> c ∈ dom m0 \/ exists e, e ∈ l /\ stop_id e = c.
Proof.
  revert m0. induction l as [|e l IH]; intros m0 Hrun c; simpl in Hrun.
  - inversion Hrun; subst. split; [by left|].
    intros [?|(e & He & _)]; [done|]. by apply elem_of_nil in He.
  - unfold stopsMapStep at 1 in Hrun.
    destruct (departure_time e) as [dep|]; [|done].
    rewrite (IH _ Hrun c), dom_insert, elem_of_union, elem_of_singleton.
    split.
    + intros [[->|?]|(e' & He' & Hc)]; [right; exists e|by left|right; exists e'].
      * split; [apply list_elem_of_here|done].
      * split; [by apply list_elem_of_further|done].
    + intros [?|(e' & He' & Hc)]; [by left; right|].
      apply elem_of_cons in He' as [->|He']; [by left; left|].
      right. by exists e'.
Qed.

Lemma size_two_keys (m : gmap string string) (a b : string) :
  a ∈ dom m -> b ∈ dom m -> a <> b -> (2 <= size m)%nat.
Proof.
  intros Ha Hb Hne. rewrite <- size_dom.
  assert (Hsub : ({[a; b]} : gset string) ⊆ dom m) by set_solver.
  apply subseteq_size in Hsub.
  rewrite size_union in Hsub by set_solver.
  by rewrite !size_singleton in Hsub.
Qed.

Lemma size_one_key (m : gmap string string) (a : string) :
  a ∈ dom m -> (1 <= size m)%nat.
Proof.
  intros Ha. rewrite <- size_dom.
  assert (Hsub : ({[a]} : gset string) ⊆ dom m) by set_solver.
  apply subseteq_size in Hsub. by rewrite size_singleton in Hsub.
Qed.

Lemma head_elem {A} (l : list A) (x : A) : head l = Some x -> x ∈ l.
Proof. destruct l; [done|]. intros [= ->]. apply list_elem_of_here. Qed.

Lemma last_elem {A} (l : list A) (x : A) : last l = Some x -> x ∈ l.
Proof.
  intros H. apply last_Some in H as [l' ->].
  apply elem_of_app. right. apply list_elem_of_here.
Qed.

(** The mapping of a trip has an entry, and two of them when its end
    positions differ. *)
Lemma tripOf_size c2o k evs t :
  tripOf c2o k evs t ->
  (1 <= size (stops t))%nat
  /\ (firstStopOrder t <> lastStopOrder t -> (2 <= size (stops t))%nat).
Proof.
  intros (_ & _ & f & l & Hf & Hl & Hfo & Hlo & _ & Hm).
  pose proof (stopsMap_dom _ _ _ Hm) as Hdom.
  assert (Hfd : stop_id f ∈ dom (stops t)).
  { apply Hdom. right. exists f. split; [by apply head_elem|done]. }
  assert (Hld : stop_id l ∈ dom (stops t)).
  { apply Hdom. right. exists l. split; [by apply last_elem|done]. }
  split; [by eapply size_one_key|].
  intros Hne. apply (size_two_keys _ (stop_id f) (stop_id l)); [done..|].
  intros Heq. apply Hne. congruence.
Qed.

(** ** Classification of all groups *)

Lemma classified_step c2o processed k evs acc acc' :
  k ∉ processed.*1 ->
  classified c2o processed acc ->
  classifyTrip c2o acc (k, evs) = inr acc' ->
  classified c2o (processed ++ [(k, evs)])%list acc'.
Proof.
  intros Hk (H1 & H2 & H3 & H4) Hrun.
  assert (Hmono : forall t, t ∈ (acc.1 ++ acc.2)%list ->
            exists evs0, (id t, evs0) ∈ (processed ++ [(k, evs)])%list
                         /\ tripOf c2o (id t) evs0 t).
  { intros t Ht. destruct (H3 t Ht) as (evs0 & Hin & Htrip).
    exists evs0. split; [|done]. apply elem_of_app. by left. }
  assert (Hfresh : forall t, tripOf c2o k evs t -> id t ∉ id <$> (acc.1 ++ acc.2)%list).
  { intros t (_ & Hid & _) Hin. apply list_elem_of_fmap in Hin as (t' & Heq & Hin).
    destruct (H3 t' Hin) as (evs0 & Hin0 & _). apply Hk.
    apply list_elem_of_fmap. exists (id t', evs0). split; [|done]. simpl. congruence. }
  assert (Hnew : forall t, tripOf c2o k evs t ->
            exists evs0, (id t, evs0) ∈ (processed ++ [(k, evs)])%list
                         /\ tripOf c2o (id t) evs0 t).
  { intros t Ht. exists evs. pose proof Ht as (_ & Hid & _). rewrite Hid.
    split; [|done]. apply elem_of_app. right. apply list_elem_of_here. }
  apply classifyTrip_inr in Hrun
    as [->|(t & Ht & [[Hlt ->]|[Hge ->]])]; simpl.
  - done.
  - split; [|split; [done|split]]; simpl.
    + intros t' Ht'. apply elem_of_app in Ht' as [?|Ht']; [by apply H1|].
      apply list_elem_of_singleton in Ht' as ->. done.
    + intros t' Ht'. rewrite <- (assoc_L (++)) in Ht'.
      apply elem_of_app in Ht' as [Ht'|Ht'].
      * apply Hmono, elem_of_app. by left.
      * apply elem_of_cons in Ht' as [->|Ht']; [by apply Hnew|].
        apply Hmono, elem_of_app. by right.
    + assert (Hp : ((acc.1 ++ [t]) ++ acc.2)%list ≡ₚ t :: (acc.1 ++ acc.2)%list).
      { rewrite <- (assoc_L (++)). simpl. symmetry. apply Permutation_middle. }
      rewrite Hp. simpl. apply NoDup_cons. split; [by apply Hfresh|done].
  - split; [done|split; [|split]]; simpl.
    + intros t' Ht'. apply elem_of_app in Ht' as [?|Ht']; [by apply H2|].
      apply list_elem_of_singleton in Ht' as ->. done.
    + intros t' Ht'. rewrite (assoc_L (++)) in Ht'.
      apply elem_of_app in Ht' as [Ht'|Ht']; [by apply Hmono|].
      apply list_elem_of_singleton in Ht' as ->. by apply Hnew.
    + assert (Hp : (acc.1 ++ acc.2 ++ [t])%list ≡ₚ t :: (acc.1 ++ acc.2)%list).
      { rewrite (assoc_L (++)). symmetry. apply Permutation_cons_append. }
      rewrite Hp. simpl. apply NoDup_cons. split; [by apply Hfresh|done].
Qed.

Lemma classified_fold c2o rest : forall processed acc both,
  NoDup (processed ++ rest)%list.*1 ->
  classified c2o processed acc ->
  foldE (classifyTrip c2o) rest acc = inr both ->
  classified c2o (processed ++ rest)%list both.
Proof.
  induction rest as [|[k evs] rest IH]; intros processed acc both Hnd Hinv Hrun;
    simpl in Hrun.
  - inversion Hrun; subst. by rewrite app_nil_r.
  - destruct (classifyTrip c2o acc (k, evs)) as [e|acc1] eqn:E; [done|].
    rewrite (cons_middle (k, evs) processed rest), (assoc_L (++)) in Hnd |- *.
    apply (IH _ acc1); [done| |done].
    eapply classified_step; [|done..].
    rewrite fmap_app in Hnd. apply NoDup_app in Hnd as (Hnd & _ & _).
    rewrite fmap_app in Hnd. apply NoDup_app in Hnd as (_ & Hnd & _).
    intros Hin. apply (Hnd k Hin). simpl. apply list_elem_of_here.
Qed.

Lemma classifyAll_classified c2o groups both :
  NoDup groups.*1 -> classifyAll c2o groups = inr both ->
  classified c2o groups both.
Proof.
  intros Hnd Hrun.
  apply (classified_fold c2o groups [] ([], []) both); [done| |done].
  split; [|split; [|split]]; simpl; try apply NoDup_nil_2;
    intros t Ht; by apply elem_of_nil in Ht.
Qed.

Lemma parseGTFS_inr lc content d r :
  (parseGTFS lc content d).2 = inr r ->
  exists groups both,
    tripStopsOf content d = inr groups
    /\ classifyAll (mkCodeToOrder GIPUZKOA_STATIONS) groups = inr both
    /\ toBrinkola r = sortBy (timeCompare lc) both.1
    /\ toIrun r = sortBy (timeCompare lc) both.2.
Proof.
  rewrite parseGTFS_unfold.
  destruct (size _ =? 0)%nat; [done|].
  destruct (negb (truthy (readFile content "trips.txt"))); [done|].
  destruct (negb (truthy (readFile content "stop_times.txt"))); [done|].
  destruct (tripStopsOf content d) as [e|groups]; [done|]. simpl.
  destruct (classifyAll _ groups) as [e|both] eqn:Hall; [done|].
  intros [= <-]. by exists groups, both.
Qed.

Lemma assoc_unique {K V} (l : list (K * V)) (k : K) (a b : V) :
  NoDup l.*1 -> (k, a) ∈ l -> (k, b) ∈ l -> a = b.
Proof.
  induction l as [|[k' v] l IH]; intros Hnd Ha Hb; [by apply elem_of_nil in Ha|].
  simpl in Hnd. apply NoDup_cons in Hnd as [Hk Hnd].
  apply elem_of_cons in Ha as [[= -> ->]|Ha]; apply elem_of_cons in Hb as [[= ->]|Hb].
  - done.
  - exfalso. apply Hk. apply list_elem_of_fmap. by exists (k', b).
  - subst. exfalso. apply Hk. apply list_elem_of_fmap. by exists (k', a).
  - by apply IH.
Qed.

(** ** Sorted lists; first and last stop in sequence order *)

Section Sorting.
Context {A : Type} (cmp : A -> A -> option Z) (R : A -> A -> Prop) (D : A -> Prop).
Hypothesis cmp_R : forall x y, D x -> D y -> (sortCompare cmp x y <= 0 <-> R x y).
Hypothesis R_total : forall x y, R x y \/ R y x.
Hypothesis R_trans : forall x y z, R x y -> R y z -> R x z.

Lemma insertBy_sorted (x : A) (l : list A) :
  D x -> Forall D l -> StronglySorted R l -> StronglySorted R (insertBy cmp x l).
Proof using cmp_R R_total R_trans.
  intros Hx HD Hs. induction Hs as [|y t Hs IH Hy]; simpl.
  - repeat constructor.
  - apply Forall_cons in HD as [Hdy HD].
    destruct (sortCompare cmp x y <=? 0) eqn:E.
    + apply Z.leb_le, cmp_R in E; [|done..].
      constructor; [by constructor|].
      constructor; [done|]. eapply Forall_impl; [exact Hy|].
      intros z Hz. by eapply R_trans.
    + apply Z.leb_gt in E.
      assert (Hyx : R y x).
      { destruct (R_total x y) as [Hxy|?]; [|done].
        apply cmp_R in Hxy; [lia|done..]. }
      constructor; [by apply IH|].
      rewrite insertBy_Permutation. by constructor.
Qed.

Lemma sortBy_sorted (l : list A) :
  Forall D l -> StronglySorted R (sortBy cmp l).
Proof using cmp_R R_total R_trans.
  unfold sortBy. induction l as [|x l IH]; intros HD; simpl; [constructor|].
  apply Forall_cons in HD as [Hx HD].
  apply insertBy_sorted; [done| |by apply IH].
  fold (sortBy cmp l). by rewrite sortBy_Permutation.
Qed.
End Sorting.

Lemma safeSequence_number (e : StopTime) :
  safeSequence e = true -> is_Some (stop_sequence e).
Proof. unfold safeSequence. destruct (stop_sequence e); [by eexists|done]. Qed.

Lemma safeSequence_numbers (evs : list StopTime) :
  Forall (fun e => safeSequence e = true) evs ->
  Forall (fun e => is_Some (stop_sequence e)) evs.
Proof. intros H. eapply Forall_impl; [exact H|]. intros e. apply safeSequence_number. Qed.

Lemma sortBy_seq_sorted (evs : list StopTime) :
  Forall (fun e => is_Some (stop_sequence e)) evs ->
  StronglySorted seqLe (sortBy seqCompare evs).
Proof.
  intros Hnum.
  assert (Hs : StronglySorted
                 (fun a b => default 0 (stop_sequence a) <= default 0 (stop_sequence b))
                 (sortBy seqCompare evs)).
  { apply (sortBy_sorted seqCompare _ (fun e => is_Some (stop_sequence e)));
      [|lia|lia|done].
    intros a b [x Hx] [y Hy]. unfold sortCompare, seqCompare.
    rewrite Hx, Hy. simpl. lia. }
  assert (Hnum' : Forall (fun e => is_Some (stop_sequence e)) (sortBy seqCompare evs))
    by (by rewrite sortBy_Permutation).
  induction Hs as [|a l Hs IH Ha]; [constructor|].
  apply Forall_cons in Hnum' as [[x Hx] Hl].
  constructor; [by apply IH|].
  rewrite Forall_forall in Ha, Hl |- *. intros b Hb.
  destruct (Hl b Hb) as [y Hy]. specialize (Ha b Hb).
  rewrite Hx, Hy in Ha. simpl in Ha. by exists x, y.
Qed.

(** Where the insertion puts a stop event in a sorted group: after the
    events with a smaller sequence, before the others. *)
Lemma insertBy_seq_split (x : StopTime) (s : list StopTime) (n : Z) :
  stop_sequence x = Some n ->
  Forall (fun e => is_Some (stop_sequence e)) s ->
  StronglySorted seqLe s ->
  exists s1 s2, s = (s1 ++ s2)%list
    /\ insertBy seqCompare x s = (s1 ++ x :: s2)%list
    /\ (forall y m, y ∈ s1 -> stop_sequence y = Some m -> m < n)
    /\ (forall y m, y ∈ s2 -> stop_sequence y = Some m -> n <= m).
Proof.
  intros Hx Hnum Hs. induction Hs as [|y t Hs IH Hy].
  - exists [], []. repeat split; intros z m Hz; by apply elem_of_nil in Hz.
  - apply Forall_cons in Hnum as [[m Hm] Hnum].
    assert (Hc : sortCompare seqCompare x y = n - m)
      by (unfold sortCompare, seqCompare; by rewrite Hx, Hm).
    cbn [insertBy]. rewrite Hc.
    destruct (n - m <=? 0) eqn:E.
    + apply Z.leb_le in E. exists [], (y :: t).
      split; [done|]. split; [done|].
      split; [intros z k Hz; by apply elem_of_nil in Hz|].
      intros z k Hz Hk. apply elem_of_cons in Hz as [->|Hz].
      * rewrite Hm in Hk. injection Hk as <-. lia.
      * rewrite Forall_forall in Hy. destruct (Hy z Hz) as (a & b & Ha & Hb & Hab).
        rewrite Hm in Ha. rewrite Hk in Hb. injection Ha as <-. injection Hb as <-. lia.
    + apply Z.leb_gt in E.
      destruct (IH Hnum) as (s1 & s2 & -> & Hins & H1 & H2).
      exists (y :: s1), s2. rewrite Hins.
      split; [done|]. split; [done|]. split; [|done].
      intros z k Hz Hk. apply elem_of_cons in Hz as [->|Hz]; [|by eapply H1].
      rewrite Hm in Hk. injection Hk as <-. lia.
Qed.

(** The first and the last stop event of a sorted group, among those that
    satisfy [P], are the first and the last in sequence order. *)
Lemma sortBy_seq_ends (P : StopTime -> Prop) `{!forall e, Decision (P e)}
    (evs : list StopTime) :
  Forall (fun e => is_Some (stop_sequence e)) evs ->
  (forall f, head (filter P (sortBy seqCompare evs)) = Some f ->
             firstInSequence (filter P evs) f)
  /\ (forall l, last (filter P (sortBy seqCompare evs)) = Some l ->
                lastInSequence (filter P evs) l).
Proof.
  induction evs as [|x evs IH]; intros Hnum; [by split|].
  apply Forall_cons in Hnum as [[n Hn] Hnum]. destruct (IH Hnum) as [IHf IHl].
  change (sortBy seqCompare (x :: evs))
    with (insertBy seqCompare x (sortBy seqCompare evs)).
  destruct (insertBy_seq_split x (sortBy seqCompare evs) n Hn)
    as (s1 & s2 & Hs & -> & H1 & H2);
    [by rewrite sortBy_Permutation|by apply sortBy_seq_sorted|].
  assert (Hmem : forall e, e ∈ filter P evs -> e ∈ filter P s1 \/ e ∈ filter P s2).
  { intros e He. apply list_elem_of_filter in He as [HP He].
    apply (sortBy_elem seqCompare) in He. rewrite Hs in He.
    apply elem_of_app in He as [?|?]; [left|right]; by apply list_elem_of_filter. }
  rewrite Hs, filter_app in IHf, IHl. rewrite filter_app, !filter_cons.
  destruct (decide (P x)) as [HPx|HPx]; [|by split]. split.
  - destruct (filter P s1) as [|a r] eqn:E1.
    + intros f [= <-]. exists [], (filter P evs), n.
      split; [done|]. split; [done|].
      split; [intros e m He; by apply elem_of_nil in He|].
      intros e m He Hm. destruct (Hmem e He) as [Hin|Hin]; [by apply elem_of_nil in Hin|].
      apply list_elem_of_filter in Hin as [_ Hin]. by eapply H2.
    + intros f [= <-]. destruct (IHf a eq_refl) as (pre & post & k & Heq & Hk & Hpre & Hpost).
      exists (x :: pre), post, k. rewrite Heq.
      split; [done|]. split; [done|]. split; [|done].
      intros e m He Hm. apply elem_of_cons in He as [->|He]; [|by eapply Hpre].
      rewrite Hn in Hm. injection Hm as <-. apply (H1 a); [|done].
      assert (Ha : a ∈ filter P s1) by (rewrite E1; apply list_elem_of_here).
      by apply list_elem_of_filter in Ha as [_ Ha].
  - destruct (filter P s2) as [|b r] eqn:E2.
    + rewrite last_snoc. intros l [= <-]. exists [], (filter P evs), n.
      split; [done|]. split; [done|].
      split; [intros e m He; by apply elem_of_nil in He|].
      intros e m He Hm. destruct (Hmem e He) as [Hin|Hin]; [|by apply elem_of_nil in Hin].
      apply list_elem_of_filter in Hin as [_ Hin]. by eapply H1.
    + intros l Hl. rewrite last_app, last_cons in Hl.
      destruct (last (b :: r)) as [y|] eqn:Ey; [|by apply last_None in Ey].
      injection Hl as ->.
      destruct (IHl l) as (pre & post & k & Heq & Hk & Hpre & Hpost);
        [by rewrite last_app, Ey|].
      exists (x :: pre), post, k. rewrite Heq.
      split; [done|]. split; [done|]. split; [|done].
      intros e m He Hm. apply elem_of_cons in He as [->|He]; [|by eapply Hpre].
      rewrite Hn in Hm. injection Hm as <-. apply (H2 l); [|done].
      assert (Hb : l ∈ filter P s2) by (rewrite E2; by apply last_elem).
      by apply list_elem_of_filter in Hb as [_ Hb].
Qed.

Lemma filter_all {A} (l : list A) : filter (fun _ => True) l = l.
Proof. induction l as [|x l IH]; [done|]. by rewrite filter_cons_True, IH. Qed.

Lemma sorted_group_ends (evs : list StopTime) (f l : StopTime) :
  Forall (fun e => safeSequence e = true) evs ->
  head (sortBy seqCompare evs) = Some f -> last (sortBy seqCompare evs) = Some l ->
  firstInSequence evs f /\ lastInSequence evs l.
Proof.
  intros Hsafe Hf Hl.
  destruct (sortBy_seq_ends (fun _ => True) evs (safeSequence_numbers _ Hsafe))
    as [H1 H2].
  rewrite !filter_all in H1, H2. split; [by apply H1|by apply H2].
Qed.

(** ** Direction lists *)

(** C3, as stated, fails: a trip whose two in-corridor stop events are at
    the same station is listed (inbound, equal positions) with a
    one-entry mapping. *)
Lemma two_entries_counterexample :
  exists r,
    (parseGTFS codeUnitCompare
       (Feed.archive Feed.calendar Feed.trips Feed.stopTimesSameStop) Feed.monday).2
    = inr r
    /\ toBrinkola r = []
    /\ summary <$> toIrun r = [(Some "T1", 1%nat, 1, 1, "08:00:00")].
Proof. eexists. split; [vm_compute; reflexivity|]. split; vm_compute; reflexivity. Qed.

(** C3, amended. Every trip of either returned list comes from a group of
    at least 2 in-corridor stop events of its trip identifier; its mapping
    has at least 1 entry, and at least 2 whenever its first and last
    corridor positions differ. No identifier occurs twice over the two
    lists. The two positions of a listed trip are those of two stop events
    of its group, and when the stop sequences of the group are integers of
    magnitude at most 2^53 these are the first and the last event in
    sequence order. A listed trip is in the outbound list exactly when its
    first position is strictly less than its last, and in the inbound list
    otherwise, the equal case included. A trip whose group has fewer than 2
    stop events, or that has no group, is in neither list. *)
Theorem direction_lists (lc : string -> string -> Z) (content : gmap string string)
    (d : DateInfo) (r : Result) :
  (parseGTFS lc content d).2 = inr r ->
  exists groups, tripStopsOf content d = inr groups
  /\ NoDup (id <$> (toBrinkola r ++ toIrun r)%list)
  /\ (forall t, t ∈ (toBrinkola r ++ toIrun r)%list ->
        (exists evs f l, (id t, evs) ∈ groups /\ (2 <= length evs)%nat
           /\ f ∈ evs /\ l ∈ evs
           /\ mkCodeToOrder GIPUZKOA_STATIONS !! stop_id f = Some (firstStopOrder t)
           /\ mkCodeToOrder GIPUZKOA_STATIONS !! stop_id l = Some (lastStopOrder t)
           /\ (Forall (fun e => safeSequence e = true) evs ->
                 firstInSequence evs f /\ lastInSequence evs l))
        /\ (1 <= size (stops t))%nat
        /\ (firstStopOrder t <> lastStopOrder t -> (2 <= size (stops t))%nat)
        /\ (t ∈ toBrinkola r <-> firstStopOrder t < lastStopOrder t)
        /\ (t ∈ toIrun r <-> ~ firstStopOrder t < lastStopOrder t))
  /\ (forall k evs, (k, evs) ∈ groups -> (length evs < 2)%nat ->
        k ∉ id <$> (toBrinkola r ++ toIrun r)%list)
  /\ (forall k, k ∉ groups.*1 -> k ∉ id <$> (toBrinkola r ++ toIrun r)%list).
Proof.
  intros Hr. apply parseGTFS_inr in Hr as (groups & both & Hg & Hall & HB & HI).
  exists groups. split; [done|].
  pose proof (stopTimesPass_valid _ _ _ _ Hg) as [Hnd _].
  destruct (classifyAll_classified _ _ _ Hnd Hall) as (H1 & H2 & H3 & H4).
  assert (Hperm : (toBrinkola r ++ toIrun r)%list ≡ₚ (both.1 ++ both.2)%list)
    by (by rewrite HB, HI, !sortBy_Permutation).
  assert (HinB : forall t, t ∈ toBrinkola r <-> t ∈ both.1)
    by (intros t; by rewrite HB, sortBy_elem).
  assert (HinI : forall t, t ∈ toIrun r <-> t ∈ both.2)
    by (intros t; by rewrite HI, sortBy_elem).
  assert (Hgrp : forall t, t ∈ (toBrinkola r ++ toIrun r)%list ->
            exists evs, (id t, evs) ∈ groups
                        /\ tripOf (mkCodeToOrder GIPUZKOA_STATIONS) (id t) evs t).
  { intros t Ht. apply H3. by rewrite <- Hperm. }
  split; [by rewrite Hperm|]. split; [|split].
  - intros t Ht. destruct (Hgrp t Ht) as (evs & Hin & Htrip).
    destruct (tripOf_size _ _ _ _ Htrip) as [Hs1 Hs2].
    destruct Htrip as (Hlen & _ & f & l & Hf & Hl & Hfo & Hlo & _ & _).
    split.
    { exists evs, f, l. split; [done|]. split; [done|].
      split; [by apply head_elem in Hf; apply sortBy_elem in Hf|].
      split; [by apply last_elem in Hl; apply sortBy_elem in Hl|].
      split; [done|]. split; [done|].
      intros Hsafe. by apply sorted_group_ends. }
    split; [done|]. split; [done|].
    apply elem_of_app in Ht. rewrite HinB, HinI in *. split; split.
    + apply H1.
    + intros Hlt. destruct Ht as [?|Ht]; [done|]. by apply H2 in Ht.
    + apply H2.
    + intros Hge. destruct Ht as [Ht|?]; [|done]. by apply H1 in Ht.
  - intros k evs Hin Hlen Hk. apply list_elem_of_fmap in Hk as (t & -> & Ht).
    destruct (Hgrp t Ht) as (evs' & Hin' & Hlen' & _).
    rewrite (assoc_unique _ _ _ _ Hnd Hin Hin') in Hlen. lia.
  - intros k Hk Hin. apply list_elem_of_fmap in Hin as (t & -> & Ht).
    destruct (Hgrp t Ht) as (evs & Hin & _). apply Hk.
    apply list_elem_of_fmap. by exists (id t, evs).
Qed.

Lemma direction_lists_witness :
  (parseGTFS codeUnitCompare Feed.busy Feed.monday).2 = inr Feed.busyResult
  /\ id <$> toBrinkola Feed.busyResult = [Some "C"; Some "B"; Some "F"; Some "A"]
  /\ id <$> toIrun Feed.busyResult = [Some "E"; Some "D"; Some "H"]
  /\ exists groups, tripStopsOf Feed.busy Feed.monday = inr groups
       /\ Forall (fun t => exists evs f l, (id t, evs) ∈ groups
                    /\ Forall (fun e => safeSequence e = true) evs
                    /\ firstInSequence evs f /\ lastInSequence evs l
                    /\ mkCodeToOrder GIPUZKOA_STATIONS !! stop_id f
                       = Some (firstStopOrder t)
                    /\ mkCodeToOrder GIPUZKOA_STATIONS !! stop_id l
                       = Some (lastStopOrder t))
            (toBrinkola Feed.busyResult ++ toIrun Feed.busyResult)%list.
Proof.
  assert (H : (parseGTFS codeUnitCompare Feed.busy Feed.monday).2 = inr Feed.busyResult)
    by (vm_compute; reflexivity).
  split; [exact H|]. split; [vm_compute; reflexivity|].
  split; [vm_compute; reflexivity|].
  destruct (direction_lists codeUnitCompare Feed.busy Feed.monday Feed.busyResult H)
    as (groups & Hg & _ & Ht & _).
  exists groups. split; [exact Hg|].
  assert (Hsafe : Forall (fun g => Forall (fun e => safeSequence e = true) g.2) groups).
  { assert (Hc : inr groups = tripStopsOf Feed.busy Feed.monday) by (by rewrite Hg).
    vm_compute in Hc. injection Hc as ->. repeat constructor. }
  apply Forall_forall. intros t Hin.
  destruct (Ht t Hin) as ((evs & f & l & Hevs & _ & _ & _ & Hfo & Hlo & Hends) & _).
  assert (Hs : Forall (fun e => safeSequence e = true) evs).
  { rewrite Forall_forall in Hsafe. exact (Hsafe _ Hevs). }
  destruct (Hends Hs) as [Hfirst Hlast].
  exists evs, f, l. repeat split; assumption.
Defined.

(** ** The defensive discard *)

(** C8. The set of corridor codes and the code-to-position lookup hold the
    same codes, so in a group produced by the stop-times pass every stop
    event, the first and the last of the sorted group among them, has a
    position in the lookup; a group with at least 2 stop events is therefore
    never dropped by the lookup test: classifying it either throws or adds
    exactly one trip. *)
Theorem lookup_never_misses (activeTrips : gset field) (txt : string)
    (groups : list (field * list StopTime)) :
  stopTimesPass activeTrips (mkValidStopCodes GIPUZKOA_STATIONS) txt = inr groups ->
  (forall code, code ∈ mkValidStopCodes GIPUZKOA_STATIONS
                <-> is_Some (mkCodeToOrder GIPUZKOA_STATIONS !! code))
  /\ forall k evs, (k, evs) ∈ groups ->
       (forall e, e ∈ sortBy seqCompare evs ->
          is_Some (mkCodeToOrder GIPUZKOA_STATIONS !! stop_id e))
       /\ (forall acc acc',
             (2 <= length evs)%nat ->
             classifyTrip (mkCodeToOrder GIPUZKOA_STATIONS) acc (k, evs) = inr acc' ->
             (length acc'.1 + length acc'.2 = S (length acc.1 + length acc.2))%nat).
Proof.
  intros Hg. split; [apply codes_orders_agree|].
  intros k evs Hin.
  apply stopTimesPass_valid in Hg as [_ Hall].
  rewrite Forall_forall in Hall. destruct (Hall _ Hin) as [_ Hevs]. simpl in Hevs.
  rewrite Forall_forall in Hevs.
  assert (Hlook : forall e, e ∈ sortBy seqCompare evs ->
            is_Some (mkCodeToOrder GIPUZKOA_STATIONS !! stop_id e)).
  { intros e He. apply codes_orders_agree, Hevs. by apply sortBy_elem in He. }
  split; [exact Hlook|].
  revert Hlook. generalize (mkCodeToOrder GIPUZKOA_STATIONS). intros c2o Hlook.
  intros acc acc' Hlen. unfold classifyTrip. cbn [fst snd].
  pose proof (sortBy_length seqCompare evs) as Hl.
  destruct (sortBy seqCompare evs) as [|f [|g rest]] eqn:Hs; simpl in Hl; [lia|lia|].
  clear Hall Hevs Hin.
  destruct (Hlook f) as [fo ->]; [apply list_elem_of_here|].
  destruct (Hlook (List.last (f :: g :: rest) f)) as [lo ->].
  { apply last_elem. by apply last_List_last. }
  destruct (foldE stopsMapStep _ ∅); [done|].
  destruct (departure_time f); [|done].
  destruct (fo <? lo); intros [= <-]; simpl; rewrite length_app; simpl; lia.
Qed.

Lemma lookup_never_misses_witness :
  exists groups,
    tripStopsOf Feed.full Feed.monday = inr groups
    /\ forall k evs, (k, evs) ∈ groups ->
         forall e, e ∈ sortBy seqCompare evs ->
           is_Some (mkCodeToOrder GIPUZKOA_STATIONS !! stop_id e).
Proof.
  destruct (tripStopsOf Feed.full Feed.monday) as [e|groups] eqn:E;
    [vm_compute in E; discriminate|].
  exists groups. split; [reflexivity|].
  intros k evs Hin.
  exact (proj1 (proj2 (lookup_never_misses _ _ groups E) k evs Hin)).
Defined.

(** ** Stop sequences that are not numbers *)

Lemma stopsMap_total (l : list StopTime) (m0 : gmap string string) :
  Forall (fun e => is_Some (departure_time e)) l ->
  exists m, foldE stopsMapStep l m0 = inr m.
Proof.
  revert m0. induction l as [|e l IH]; intros m0 Hall; simpl; [by eexists|].
  apply Forall_cons in Hall as [[dep Hdep] Hall].
  unfold stopsMapStep at 1. rewrite Hdep. by apply IH.
Qed.

Lemma classifyTrip_total c2o acc k evs :
  Forall (fun e => is_Some (departure_time e)) evs ->
  exists acc', classifyTrip c2o acc (k, evs) = inr acc'.
Proof.
  intros Hall. unfold classifyTrip. cbn [fst snd].
  rewrite <- (sortBy_Permutation seqCompare evs) in Hall.
  destruct (sortBy seqCompare evs) as [|f [|g rest]]; [by eexists..|].
  destruct (c2o !! stop_id f); [|by eexists].
  destruct (c2o !! stop_id _); [|by eexists].
  destruct (stopsMap_total _ ∅ Hall) as [m ->].
  apply Forall_cons in Hall as [[dep ->] _].
  destruct (_ <? _); by eexists.
Qed.

Lemma classifyAll_total c2o groups :
  groupsInv (fun e => is_Some (departure_time e)) groups ->
  exists both, classifyAll c2o groups = inr both.
Proof.
  intros [_ Hall]. unfold classifyAll.
  destruct (foldE_total (fun _ => True) (classifyTrip c2o) groups) with (s0 := ([], []) : list ParsedTrip * list ParsedTrip)
    as (both & Hrun & _); [|done|by exists both].
  intros acc [k evs] Hin _. rewrite Forall_forall in Hall.
  destruct (Hall _ Hin) as [_ Hevs].
  destruct (classifyTrip_total c2o acc k evs Hevs) as [acc' ->]. by exists acc'.
Qed.

Lemma stopTimesPass_total (activeTrips : gset field) (valid : gset string)
    (txt : string) :
  (forall line, line ∈ tl (split LF txt) -> isEmpty line = false ->
     is_Some (column (headersOf txt) (split COMMA line) "stop_id")
     /\ is_Some (column (headersOf txt) (split COMMA line) "departure_time")) ->
  exists groups, stopTimesPass activeTrips valid txt = inr groups
    /\ groupsInv (fun e => is_Some (departure_time e)) groups.
Proof.
  intros Hrows. unfold stopTimesPass.
  apply (foldE_total (groupsInv (fun e => is_Some (departure_time e))));
    [|apply groupsInv_nil].
  intros s line Hin Hs.
  destruct (stopTimesRow _ activeTrips valid s line) as [e|s'] eqn:E.
  - exfalso. unfold stopTimesRow in E.
    destruct (isEmpty line) eqn:He; [done|].
    case_bool_decide; [|done].
    destruct (Hrows line Hin He) as [[raw Hraw] _].
    unfold column, headersOf in Hraw. simpl in E. rewrite Hraw in E. simpl in E.
    case_bool_decide; done.
  - exists s'. split; [done|]. eapply stopTimesRow_inv; [|done..].
    intros raw He _ _. simpl. apply (Hrows line Hin He).
Qed.

(** C7, as stated, fails: stop sequences that are not numbers are read as
    NaN, the rows are kept and the run returns its result. *)
Lemma bad_sequence_counterexample :
  parseInt (Some "x") = None /\ parseInt (Some "") = None
  /\ exists r,
       (parseGTFS codeUnitCompare
          (Feed.archive Feed.calendar Feed.trips Feed.stopTimesBadSeq) Feed.monday).2
       = inr r
       /\ summary <$> toBrinkola r = [(Some "T1", 2%nat, 1, 27, "08:00:00")]
       /\ toIrun r = [].
Proof.
  split; [reflexivity|]. split; [reflexivity|].
  eexists. split; [vm_compute; reflexivity|]. split; vm_compute; reflexivity.
Qed.

(** C7, amended. A stop_sequence cell that does not parse as an integer is
    stored as NaN with its row, which is kept; it never fails the request.
    With a non-empty active set, trips.txt and stop_times.txt present and
    non-empty, and a stop_id and a departure_time cell on every non-empty
    line of stop_times.txt, the run returns a result whatever the
    stop_sequence cells hold. *)
Theorem bad_sequence_is_not_fatal (lc : string -> string -> Z)
    (content : gmap string string) (d : DateInfo) (tripsTxt stopTimesTxt : string) :
  size (activeServicesOf content d) <> 0%nat ->
  readFile content "trips.txt" = Some tripsTxt -> tripsTxt <> "" ->
  readFile content "stop_times.txt" = Some stopTimesTxt -> stopTimesTxt <> "" ->
  (forall line, line ∈ tl (split LF stopTimesTxt) -> isEmpty line = false ->
     is_Some (column (headersOf stopTimesTxt) (split COMMA line) "stop_id")
     /\ is_Some (column (headersOf stopTimesTxt) (split COMMA line) "departure_time")) ->
  (exists r, (parseGTFS lc content d).2 = inr r)
  /\ (forall (idx : StopTimesIdx) (activeTrips : gset field) (valid : gset string)
             (groups : list (field * list StopTime)) (line raw : string),
        isEmpty line = false ->
        at_ (split COMMA line) (st_trip idx) ∈ activeTrips ->
        at_ (split COMMA line) (st_stop idx) = Some raw ->
        trim raw ∈ valid ->
        stopTimesRow idx activeTrips valid groups line
        = inr (pushStop (at_ (split COMMA line) (st_trip idx))
                 {| trip_id := at_ (split COMMA line) (st_trip idx);
                    arrival_time := "";
                    departure_time := at_ (split COMMA line) (st_dep idx);
                    stop_id := trim raw;
                    stop_sequence := parseInt (at_ (split COMMA line) (st_seq idx)) |}
                 groups)).
Proof.
  intros Hsize Htr Htr0 Hst Hst0 Hrows. split.
  - rewrite parseGTFS_unfold.
    apply Nat.eqb_neq in Hsize. rewrite Hsize, Htr, Hst.
    assert (truthy (Some tripsTxt) = true) as -> by (by destruct tripsTxt).
    assert (truthy (Some stopTimesTxt) = true) as -> by (by destruct stopTimesTxt).
    simpl negb. cbv iota.
    unfold tripStopsOf. rewrite Hst. simpl default.
    destruct (stopTimesPass_total (activeTripsOf content d)
                (mkValidStopCodes GIPUZKOA_STATIONS) stopTimesTxt Hrows)
      as (groups & -> & Hinv).
    destruct (classifyAll_total (mkCodeToOrder GIPUZKOA_STATIONS) groups Hinv)
      as [both ->].
    by eexists.
  - intros idx activeTrips valid groups line raw He Hact Hraw Hval.
    unfold stopTimesRow. rewrite He, Hraw. simpl.
    by rewrite !bool_decide_eq_true_2.
Qed.

Lemma bad_sequence_is_not_fatal_witness :
  exists r,
    (parseGTFS codeUnitCompare
       (Feed.archive Feed.calendar Feed.trips Feed.stopTimesBadSeq) Feed.monday).2
    = inr r.
Proof.
  apply (bad_sequence_is_not_fatal codeUnitCompare
           (Feed.archive Feed.calendar Feed.trips Feed.stopTimesBadSeq)
           Feed.monday Feed.trips Feed.stopTimesBadSeq).
  - vm_compute. discriminate.
  - vm_compute. reflexivity.
  - vm_compute. discriminate.
  - vm_compute. reflexivity.
  - vm_compute. discriminate.
  - intros line Hin _.
    assert (Hl : tl (split LF Feed.stopTimesBadSeq)
                 = ["T1,08:00:00,11600,x"; "T1,10:30:00,11305,"])
      by (vm_compute; reflexivity).
    rewrite Hl in Hin.
    apply elem_of_cons in Hin as [->|Hin];
      [split; vm_compute; eexists; reflexivity|].
    apply list_elem_of_singleton in Hin as ->.
    split; vm_compute; eexists; reflexivity.
Defined.

(** ** Order of the returned lists *)

Lemma lexLe_total a b : lexLe a b \/ lexLe b a.
Proof.
  unfold lexLe. rewrite (String.compare_antisym b a).
  destruct (String.compare a b); simpl; [left|left|right]; discriminate.
Qed.

Lemma lexLe_trans a b c : lexLe a b -> lexLe b c -> lexLe a c.
Proof.
  unfold lexLe. revert b c.
  induction a as [|x a IH]; intros [|y b] [|z c]; simpl; try done.
  unfold Ascii.compare.
  destruct (N.compare_spec (N_of_ascii x) (N_of_ascii y)) as [Hxy|Hxy|Hxy];
    destruct (N.compare_spec (N_of_ascii y) (N_of_ascii z)) as [Hyz|Hyz|Hyz];
    destruct (N.compare_spec (N_of_ascii x) (N_of_ascii z)) as [Hxz|Hxz|Hxz];
    try done; try lia.
  apply IH.
Qed.

(** C4. On zero-padded HH:MM:SS keys, where the platform collation agrees
    with plain lexicographic comparison, both returned lists are sorted
    non-decreasing by the sort key, times at or beyond "24:00:00" included:
    every trip's key is lexicographically at most the key of every trip
    after it. The key of a trip is the departure time, as read and not
    truncated, of a stop event of its group; when the stop sequences of the
    group are integers of magnitude at most 2^53 that event is the first in
    sequence order, the first in-corridor stop. *)
Theorem lists_sorted (lc : string -> string -> Z) (content : gmap string string)
    (d : DateInfo) (r : Result) :
  (forall a b, isTime a = true -> isTime b = true -> (lc a b <= 0 <-> lexLe a b)) ->
  (parseGTFS lc content d).2 = inr r ->
  (forall t, t ∈ (toBrinkola r ++ toIrun r)%list ->
     isTime (departureFromOrigin t) = true) ->
  StronglySorted keyLe (toBrinkola r) /\ StronglySorted keyLe (toIrun r)
  /\ exists groups, tripStopsOf content d = inr groups
       /\ forall t, t ∈ (toBrinkola r ++ toIrun r)%list ->
            exists evs f, (id t, evs) ∈ groups /\ f ∈ evs
              /\ departure_time f = Some (departureFromOrigin t)
              /\ (Forall (fun e => safeSequence e = true) evs ->
                    firstInSequence evs f).
Proof.
  intros Hlc Hr Htimes.
  apply parseGTFS_inr in Hr as (groups & both & Hg & Hall & HB & HI).
  assert (Hsort : forall l, Forall (fun t => isTime (departureFromOrigin t) = true) l ->
            StronglySorted keyLe (sortBy (timeCompare lc) l)).
  { intros l. apply sortBy_sorted.
    - intros x y Hx Hy. unfold sortCompare, timeCompare; simpl. by apply Hlc.
    - intros x y. apply lexLe_total.
    - intros x y z. apply lexLe_trans. }
  split; [|split].
  - rewrite HB. apply Hsort, Forall_forall. intros t Ht.
    apply Htimes, elem_of_app. left. rewrite HB. by apply sortBy_elem.
  - rewrite HI. apply Hsort, Forall_forall. intros t Ht.
    apply Htimes, elem_of_app. right. rewrite HI. by apply sortBy_elem.
  - exists groups. split; [done|]. intros t Ht.
    pose proof (stopTimesPass_valid _ _ _ _ Hg) as [Hnd _].
    destruct (classifyAll_classified _ _ _ Hnd Hall) as (_ & _ & H3 & _).
    destruct (H3 t) as (evs & Hin & _ & _ & f & l & Hf & Hl & _ & _ & Hdep & _).
    { rewrite HB, HI in Ht. apply elem_of_app in Ht. apply elem_of_app.
      by rewrite !sortBy_elem in Ht. }
    exists evs, f. split; [done|].
    split; [by apply head_elem in Hf; apply sortBy_elem in Hf|].
    split; [done|]. intros Hsafe. by apply (sorted_group_ends evs f l).
Qed.

Lemma codeUnitCompare_le a b : codeUnitCompare a b <= 0 <-> lexLe a b.
Proof.
  unfold codeUnitCompare, lexLe. destruct (String.compare a b); split; (done || lia).
Qed.

Lemma lists_sorted_witness :
  departureFromOrigin <$> toBrinkola Feed.busyResult
  = ["08:00:00"; "08:00:00"; "10:00:00"; "25:10:00"]
  /\ departureFromOrigin <$> toIrun Feed.busyResult
     = ["06:00:00"; "23:50:00"; "24:05:00"]
  /\ StronglySorted keyLe (toBrinkola Feed.busyResult)
  /\ StronglySorted keyLe (toIrun Feed.busyResult).
Proof.
  split; [vm_compute; reflexivity|]. split; [vm_compute; reflexivity|].
  destruct (lists_sorted codeUnitCompare Feed.busy Feed.monday Feed.busyResult)
    as (HB & HI & _).
  - intros a b _ _. apply codeUnitCompare_le.
  - vm_compute. reflexivity.
  - intros t Ht. vm_compute in Ht.
    repeat (apply elem_of_cons in Ht as [->|Ht]; [reflexivity|]).
    by apply elem_of_nil in Ht.
  - split; [exact HB|exact HI].
Defined.

Lemma exception_last_row_decides_witness :
  Some "S1" ∈ exceptionPass "20240603" Feed.calendarDates {[ Some "S1" ]}
  <-> false = true.
Proof.
  refine (proj1 (exception_last_row_decides "20240603" Feed.calendarDates
                   {[ Some "S1" ]} (Some "S1") _ _ _)
            ["S1,20240603,1"; "S2,20240603,1"] "S1,20240603,2" ["S1,20240604,1"]
            false _ _ _).
  - vm_compute. set_solver.
  - vm_compute. set_solver.
  - vm_compute. set_solver.
  - vm_compute. reflexivity.
  - vm_compute. reflexivity.
  - intros r Hr. apply list_elem_of_singleton in Hr as ->. vm_compute. reflexivity.
Defined.

Lemma exceptions_override_base_witness :
  Some "S2" ∈ resolveServices Feed.monday (Some Feed.calendar) (Some Feed.calendarDates)
  <-> true = true.
Proof.
  refine (proj2 (proj2 (proj2 (proj2 (proj2
            (exceptions_override_base Feed.monday (Some Feed.calendar)
               Feed.calendarDates (Some "S2") _ _ _)))))
            ["S1,20240603,1"] "S2,20240603,1" ["S1,20240603,2"; "S1,20240604,1"]
            true _ _ _).
  - vm_compute. set_solver.
  - vm_compute. set_solver.
  - vm_compute. set_solver.
  - vm_compute. reflexivity.
  - vm_compute. reflexivity.
  - intros r Hr.
    repeat (apply elem_of_cons in Hr as [->|Hr]; [vm_compute; reflexivity|]).
    by apply elem_of_nil in Hr.
Defined.

(** * Further properties of the pipeline *)

(** ** Active trips *)

Lemma tripsRow_elem (idx : TripsIdx) (A : gset field) (T : gset field)
    (line : string) (k : field) :
  k ∈ tripsRow idx A T line <->
  k ∈ T \/ (isEmpty line = false
           /\ at_ (split COMMA line) (t_trip idx) = k
           /\ at_ (split COMMA line) (t_service idx) ∈ A).
Proof.
  unfold tripsRow. destruct (isEmpty line); [naive_solver|].
  case_bool_decide; [|naive_solver].
  rewrite elem_of_union, elem_of_singleton. naive_solver.
Qed.

(** X1. The active-trip set built from trips.txt holds exactly the trip_id
    cells of the non-empty lines after the header whose service_id cell is
    an active service. Lines are taken raw (no trimming), and nothing is
    required of the header: a column that is missing reads as undefined on
    every line. *)
Theorem trips_pass_membership (A : gset field) (txt : string) (k : field) :
  k ∈ tripsPass A txt <->
  exists line, line ∈ rawLines txt /\ isEmpty line = false
    /\ column (headersOf txt) (split COMMA line) "trip_id" = k
    /\ column (headersOf txt) (split COMMA line) "service_id" ∈ A.
Proof.
  unfold tripsPass, rawLines, column, headersOf.
  set (idx := tripsIdx (headerOf (split LF txt))).
  change (indexOf (headerOf (split LF txt)) (Some "trip_id")) with (t_trip idx).
  change (indexOf (headerOf (split LF txt)) (Some "service_id")) with (t_service idx).
  generalize (tl (split LF txt)). intros lines.
  assert (H : forall T : gset field,
             k ∈ fold_left (tripsRow idx A) lines T <->
             k ∈ T \/ exists line, line ∈ lines /\ isEmpty line = false
                        /\ at_ (split COMMA line) (t_trip idx) = k
                        /\ at_ (split COMMA line) (t_service idx) ∈ A).
  { induction lines as [|l ls IH]; intros T; simpl.
    - split; [by left|]. intros [?|(line & Hin & _)]; [done|].
      by apply elem_of_nil in Hin.
    - rewrite IH, tripsRow_elem. split.
      + intros [[?|?]|(line & Hin & ?)]; [by left| |].
        * right. exists l. split; [apply list_elem_of_here|done].
        * right. exists line. split; [by apply list_elem_of_further|done].
      + intros [?|(line & Hin & ?)]; [by left; left|].
        apply elem_of_cons in Hin as [->|Hin]; [by left; right|].
        right. by exists line. }
  rewrite H. split; [|by right]. intros [Hk|?]; [|done]. set_solver.
Qed.

(** ** The stop-times loop: failure and grouping *)

Lemma stopTimesRow_spec (idx : StopTimesIdx) (activeTrips : gset field)
    (valid : gset string) (g : list (field * list StopTime)) (line : string) :
  (rowThrows idx activeTrips line
   /\ stopTimesRow idx activeTrips valid g line = inl TypeError)
  \/ (~ rowThrows idx activeTrips line
      /\ stopTimesRow idx activeTrips valid g line
         = inr (match rowEvent idx activeTrips valid line with
                | Some e => pushStop (trip_id e) e g
                | None => g
                end)).
Proof.
  unfold rowThrows, stopTimesRow, rowEvent.
  destruct (isEmpty line); [right; split; [naive_solver|done]|].
  case_bool_decide as Hact; [|right; split; [naive_solver|done]].
  destruct (at_ (split COMMA line) (st_stop idx)) as [raw|]; simpl.
  - right. split; [naive_solver|]. by case_bool_decide.
  - by left.
Qed.

Lemma stopTimes_fold_ok (idx : StopTimesIdx) (activeTrips : gset field)
    (valid : gset string) (lines : list string) (g : list (field * list StopTime)) :
  (forall line, line ∈ lines -> ~ rowThrows idx activeTrips line) ->
  foldE (stopTimesRow idx activeTrips valid) lines g
  = inr (fold_left (fun g e => pushStop (trip_id e) e g)
           (omap (rowEvent idx activeTrips valid) lines) g).
Proof.
  revert g. induction lines as [|l ls IH]; intros g Hok; simpl; [done|].
  destruct (stopTimesRow_spec idx activeTrips valid g l) as [[Hthr _]|[_ ->]].
  { exfalso. by apply (Hok l (list_elem_of_here _ _)). }
  rewrite IH by (intros line Hin; apply Hok; by apply list_elem_of_further).
  by destruct (rowEvent idx activeTrips valid l).
Qed.

Lemma stopTimes_fold_throws (idx : StopTimesIdx) (activeTrips : gset field)
    (valid : gset string) (lines : list string) (g : list (field * list StopTime)) :
  (exists line, line ∈ lines /\ rowThrows idx activeTrips line) ->
  foldE (stopTimesRow idx activeTrips valid) lines g = inl TypeError.
Proof.
  revert g. induction lines as [|l ls IH]; intros g (line & Hin & Hthr); simpl.
  - by apply elem_of_nil in Hin.
  - destruct (stopTimesRow_spec idx activeTrips valid g l) as [[_ ->]|[Hno ->]]; [done|].
    apply IH. exists line. split; [|done].
    apply elem_of_cons in Hin as [->|?]; [done|done].
Qed.

Lemma stopTimes_fold_inl (idx : StopTimesIdx) (activeTrips : gset field)
    (valid : gset string) (lines : list string) (g : list (field * list StopTime))
    (e : Error) :
  foldE (stopTimesRow idx activeTrips valid) lines g = inl e ->
  e = TypeError /\ exists line, line ∈ lines /\ rowThrows idx activeTrips line.
Proof.
  revert g. induction lines as [|l ls IH]; intros g Hrun; simpl in Hrun; [done|].
  destruct (stopTimesRow_spec idx activeTrips valid g l) as [[Hthr Hrow]|[_ Hrow]];
    rewrite Hrow in Hrun.
  - split; [congruence|]. exists l. split; [apply list_elem_of_here|done].
  - destruct (IH _ Hrun) as (-> & line & Hin & Hthr). split; [done|].
    exists line. split; [by apply list_elem_of_further|done].
Qed.

(** X2. The stop-times loop throws exactly when some non-empty line of an
    active trip has no stop cell (the line is too short, or the header has no
    stop_id column, so that the cell is undefined), and what it throws is
    then a TypeError; lines of inactive trips are never looked at that far. *)
Theorem stop_times_failure (activeTrips : gset field) (valid : gset string)
    (txt : string) (e : Error) :
  stopTimesPass activeTrips valid txt = inl e <->
  e = TypeError
  /\ exists line, line ∈ rawLines txt
       /\ rowThrows (stopTimesIdx (headersOf txt)) activeTrips line.
Proof.
  unfold stopTimesPass, rawLines, headersOf. split.
  - apply stopTimes_fold_inl.
  - intros (-> & Hex). by apply stopTimes_fold_throws.
Qed.

Lemma groupOf_pushStop (k k' : field) (e : StopTime) (g : list (field * list StopTime)) :
  groupOf k (pushStop k' e g)
  = if decide (k' = k) then (groupOf k g ++ [e])%list else groupOf k g.
Proof.
  induction g as [|[k0 v] g IH]; simpl.
  - destruct (decide (k' = k)); done.
  - destruct (decide (k0 = k')) as [->|Hne]; simpl.
    + destruct (decide (k' = k)); done.
    + destruct (decide (k0 = k)) as [->|Hne'].
      * by rewrite decide_False by done.
      * apply IH.
Qed.

Lemma groupOf_fold (k : field) (es : list StopTime) (g : list (field * list StopTime)) :
  groupOf k (fold_left (fun g e => pushStop (trip_id e) e g) es g)
  = (groupOf k g ++ filter (fun e => trip_id e = k) es)%list.
Proof.
  revert g. induction es as [|e es IH]; intros g; simpl.
  - by rewrite app_nil_r.
  - rewrite IH, groupOf_pushStop, filter_cons.
    destruct (decide (trip_id e = k)); [by rewrite <- (assoc_L (++))|done].
Qed.

Lemma groupOf_elem (k : field) (evs : list StopTime) (g : list (field * list StopTime)) :
  NoDup g.*1 -> ((k, evs) ∈ g <-> k ∈ g.*1 /\ groupOf k g = evs).
Proof.
  induction g as [|[k0 v] g IH]; intros Hnd.
  - rewrite fmap_nil, !elem_of_nil. naive_solver.
  - rewrite fmap_cons in Hnd |- *. cbn [groupOf fst] in *.
    apply NoDup_cons in Hnd as [Hk0 Hnd]. rewrite !elem_of_cons, (IH Hnd).
    destruct (decide (k0 = k)) as [->|Hne]; [|naive_solver].
    split; [|naive_solver]. intros [[= ->]|[? _]]; [by split; [left|]|done].
Qed.

(** X3. When the stop-times loop succeeds, the group it holds for a trip
    identifier is the list of that trip's surviving stop events in file
    order, nothing lost and nothing added; a trip has a group exactly when
    it has a surviving event, and no identifier has two groups. *)
Theorem stop_times_grouping (activeTrips : gset field) (valid : gset string)
    (txt : string) (groups : list (field * list StopTime)) :
  stopTimesPass activeTrips valid txt = inr groups ->
  NoDup groups.*1
  /\ forall k,
       groupOf k groups
       = filter (fun e => trip_id e = k) (survivingEvents activeTrips valid txt)
       /\ (k ∈ groups.*1 <-> groupOf k groups <> [])
       /\ (forall evs, (k, evs) ∈ groups <-> evs <> [] /\ groupOf k groups = evs).
Proof.
  intros Hrun.
  pose proof (stopTimesPass_valid _ _ _ _ Hrun) as [Hnd Hne].
  split; [done|]. intros k.
  assert (Hgrp : groupOf k groups
                 = filter (fun e => trip_id e = k) (survivingEvents activeTrips valid txt)).
  { unfold stopTimesPass, survivingEvents, rawLines, headersOf in *.
    rewrite stopTimes_fold_ok in Hrun.
    - injection Hrun as <-. by rewrite groupOf_fold.
    - intros line Hin Hthr.
      rewrite (stopTimes_fold_throws _ _ _ _ _ (ex_intro _ line (conj Hin Hthr))) in Hrun.
      done. }
  assert (Hkey : k ∈ groups.*1 <-> groupOf k groups <> []).
  { split.
    - intros Hin. apply list_elem_of_fmap in Hin as ([k' evs] & Hk & Hin).
      simpl in Hk. subst k'.
      pose proof Hin as Hin'. apply (groupOf_elem _ _ _ Hnd) in Hin' as [_ ->].
      rewrite Forall_forall in Hne. by destruct (Hne _ Hin).
    - clear. induction groups as [|[k0 v] g IH]; [done|].
      rewrite fmap_cons. cbn [groupOf fst].
      destruct (decide (k0 = k)) as [->|]; [intros _; apply list_elem_of_here|].
      intros H. apply list_elem_of_further. by apply IH. }
  split; [done|]. split; [done|].
  intros evs. rewrite (groupOf_elem _ _ _ Hnd), Hkey. naive_solver.
Qed.

Lemma stop_times_grouping_witness :
  exists groups,
    stopTimesPass {[Some "T1"]} (mkValidStopCodes GIPUZKOA_STATIONS) Feed.stopTimes
    = inr groups
    /\ NoDup groups.*1.
Proof.
  destruct (stopTimesPass {[Some "T1"]} (mkValidStopCodes GIPUZKOA_STATIONS)
              Feed.stopTimes) as [e|groups] eqn:E.
  - vm_compute in E. discriminate E.
  - exists groups. split; [reflexivity|].
    exact (proj1 (stop_times_grouping _ _ _ _ E)).
Defined.

(** ** Sorting: order and stability *)

Lemma insertBy_filter_out {A} (cmp : A -> A -> option Z) (P : A -> Prop)
    `{!forall x, Decision (P x)} (x : A) (l : list A) :
  ~ P x -> filter P (insertBy cmp x l) = filter P l.
Proof.
  intros Hx. induction l as [|y t IH]; simpl.
  - by rewrite filter_cons_False.
  - destruct (sortCompare cmp x y <=? 0).
    + by rewrite filter_cons_False.
    + rewrite !filter_cons, IH. done.
Qed.

Lemma insertBy_filter_in {A} (cmp : A -> A -> option Z) (P : A -> Prop)
    `{!forall x, Decision (P x)} (x : A) (l : list A) :
  P x -> (forall y, y ∈ l -> P y -> sortCompare cmp x y <= 0) ->
  filter P (insertBy cmp x l) = x :: filter P l.
Proof.
  intros Hx. induction l as [|y t IH]; intros Hle; simpl.
  - by rewrite filter_cons_True.
  - destruct (sortCompare cmp x y <=? 0) eqn:E.
    + by rewrite (filter_cons_True P x).
    + apply Z.leb_gt in E.
      assert (~ P y) by (intros Hy; specialize (Hle y (list_elem_of_here _ _) Hy); lia).
      rewrite (filter_cons_False P y), (filter_cons_False P y) by done.
      apply IH. intros z Hz. apply Hle. by apply list_elem_of_further.
Qed.

(** Elements that compare as equal keep their order. *)
Lemma sortBy_stable {A} (cmp : A -> A -> option Z) (P : A -> Prop)
    `{!forall x, Decision (P x)} (l : list A) :
  (forall x y, x ∈ l -> y ∈ l -> P x -> P y -> sortCompare cmp x y <= 0) ->
  filter P (sortBy cmp l) = filter P l.
Proof.
  unfold sortBy. induction l as [|x l IH]; intros Heq; simpl; [done|].
  fold (sortBy cmp l) in *.
  assert (IH' : filter P (sortBy cmp l) = filter P l).
  { apply IH. intros a b Ha Hb. apply Heq; by apply list_elem_of_further. }
  destruct (decide (P x)) as [Hx|Hx].
  - rewrite insertBy_filter_in, IH', filter_cons_True; [done..|].
    intros y Hy HPy. apply Heq; [apply list_elem_of_here| |done..].
    apply list_elem_of_further. by apply sortBy_elem in Hy.
  - by rewrite insertBy_filter_out, IH', filter_cons_False.
Qed.

(** X4. A group whose stop sequences are all numbers comes out of the sort
    in non-decreasing sequence order, with the same stop events, and stop
    events that share a sequence number keep their file order. *)
Theorem stops_sorted_by_sequence (evs : list StopTime) :
  Forall (fun e => is_Some (stop_sequence e)) evs ->
  StronglySorted seqLe (sortBy seqCompare evs)
  /\ sortBy seqCompare evs ≡ₚ evs
  /\ forall n, filter (fun e => stop_sequence e = Some n) (sortBy seqCompare evs)
               = filter (fun e => stop_sequence e = Some n) evs.
Proof.
  intros Hnum. split; [|split; [apply sortBy_Permutation|]].
  - assert (Hs : StronglySorted
                   (fun a b => default 0 (stop_sequence a) <= default 0 (stop_sequence b))
                   (sortBy seqCompare evs)).
    { apply (sortBy_sorted seqCompare _ (fun e => is_Some (stop_sequence e)));
        [|lia|lia|done].
      intros a b [x Hx] [y Hy]. unfold sortCompare, seqCompare.
      rewrite Hx, Hy. simpl. lia. }
    assert (Hnum' : Forall (fun e => is_Some (stop_sequence e)) (sortBy seqCompare evs))
      by (by rewrite sortBy_Permutation).
    induction Hs as [|a l Hs IH Ha]; [constructor|].
    apply Forall_cons in Hnum' as [[x Hx] Hl].
    constructor; [by apply IH|].
    rewrite Forall_forall in Ha, Hl |- *. intros b Hb.
    destruct (Hl b Hb) as [y Hy]. specialize (Ha b Hb).
    rewrite Hx, Hy in Ha. simpl in Ha. by exists x, y.
  - intros n. apply sortBy_stable. intros a b _ _ Ha Hb.
    unfold sortCompare, seqCompare. rewrite Ha, Hb. simpl. lia.
Qed.

Lemma stops_sorted_by_sequence_witness :
  sortBy seqCompare
    [ {| trip_id := Some "T"; arrival_time := ""; departure_time := Some "09:00:00";
         stop_id := "11512"; stop_sequence := Some 7 |};
      {| trip_id := Some "T"; arrival_time := ""; departure_time := Some "08:00:00";
         stop_id := "11600"; stop_sequence := Some 2 |} ]
  ≡ₚ
    [ {| trip_id := Some "T"; arrival_time := ""; departure_time := Some "09:00:00";
         stop_id := "11512"; stop_sequence := Some 7 |};
      {| trip_id := Some "T"; arrival_time := ""; departure_time := Some "08:00:00";
         stop_id := "11600"; stop_sequence := Some 2 |} ].
Proof.
  refine (proj1 (proj2 (stops_sorted_by_sequence _ _))).
  repeat constructor; by eexists.
Defined.

(** ** Classification: what is listed and what throws *)

Lemma foldE_prefix {S X} (I : list X -> S -> Prop) (f : S -> X -> Error + S)
    (l : list X) (s0 s : S) :
  (forall pre x s1 s2, x ∈ l -> I pre s1 -> f s1 x = inr s2 -> I (pre ++ [x])%list s2) ->
  I [] s0 -> foldE f l s0 = inr s -> I l s.
Proof.
  intros Hstep H0 Hrun.
  assert (H : forall rest pre s1,
             (forall x, x ∈ rest -> x ∈ l) -> I pre s1 ->
             foldE f rest s1 = inr s -> I (pre ++ rest)%list s).
  { induction rest as [|x rest IH]; intros pre s1 Hsub H1 Hr; simpl in Hr.
    - inversion Hr; subst. by rewrite app_nil_r.
    - destruct (f s1 x) as [e|s2] eqn:E; [done|].
      rewrite (cons_middle x pre rest), (assoc_L (++)).
      apply (IH _ s2); [|by eapply Hstep; [apply Hsub, list_elem_of_here|..]|done].
      intros y Hy. apply Hsub. by apply list_elem_of_further. }
  by apply (H l [] s0).
Qed.

Lemma foldE_inl_iff {S X} (bad : X -> Prop) (e0 : Error) (f : S -> X -> Error + S)
    (l : list X) (s0 : S) (e : Error) :
  (forall s x, x ∈ l ->
     (bad x /\ f s x = inl e0) \/ (~ bad x /\ exists s', f s x = inr s')) ->
  foldE f l s0 = inl e <-> e = e0 /\ exists x, x ∈ l /\ bad x.
Proof.
  revert s0. induction l as [|x l IH]; intros s0 Hstep; simpl.
  - split; [done|]. intros (_ & x & Hx & _). by apply elem_of_nil in Hx.
  - assert (Hstep' : forall s y, y ∈ l ->
              (bad y /\ f s y = inl e0) \/ (~ bad y /\ exists s', f s y = inr s'))
      by (intros s y Hy; apply Hstep; by apply list_elem_of_further).
    destruct (Hstep s0 x (list_elem_of_here _ _)) as [[Hb ->]|[Hnb [s1 ->]]].
    + split; [intros [= <-]|by intros [-> _]].
      split; [done|]. exists x. split; [apply list_elem_of_here|done].
    + rewrite (IH s1 Hstep'). split.
      * intros (-> & y & Hy & Hby). split; [done|].
        exists y. split; [by apply list_elem_of_further|done].
      * intros (-> & y & Hy & Hby). split; [done|].
        apply elem_of_cons in Hy as [->|Hy]; [done|]. by exists y.
Qed.

Lemma stopsMap_inl_iff (l : list StopTime) (m0 : gmap string string) (e : Error) :
  foldE stopsMapStep l m0 = inl e <->
  e = TypeError /\ exists ev, ev ∈ l /\ departure_time ev = None.
Proof.
  apply foldE_inl_iff. intros m ev _. unfold stopsMapStep.
  destruct (departure_time ev); [right|left]; [|done].
  split; [done|by eexists].
Qed.

Lemma classifyTrip_located (c2o : gmap string Z)
    (acc : list ParsedTrip * list ParsedTrip) (k : field) (evs : list StopTime) :
  (forall e, e ∈ evs -> is_Some (c2o !! stop_id e)) -> (2 <= length evs)%nat ->
  ((exists e, e ∈ evs /\ departure_time e = None)
   /\ classifyTrip c2o acc (k, evs) = inl TypeError)
  \/ ((forall e, e ∈ evs -> departure_time e <> None)
      /\ exists t, tripOf c2o k evs t
         /\ ((firstStopOrder t < lastStopOrder t
              /\ classifyTrip c2o acc (k, evs) = inr ((acc.1 ++ [t])%list, acc.2))
             \/ (~ firstStopOrder t < lastStopOrder t
                 /\ classifyTrip c2o acc (k, evs) = inr (acc.1, (acc.2 ++ [t])%list)))).
Proof.
  intros Hloc Hlen.
  destruct (classifyTrip c2o acc (k, evs)) as [e|acc'] eqn:Hrun.
  - left. unfold classifyTrip in Hrun. cbn [fst snd] in Hrun.
    pose proof (sortBy_length seqCompare evs) as Hl.
    destruct (sortBy seqCompare evs) as [|f [|g rest]] eqn:Hs; simpl in Hl; [lia|lia|].
    destruct (Hloc f) as [fo Hfo];
      [apply (sortBy_elem seqCompare); rewrite Hs; apply list_elem_of_here|].
    destruct (Hloc (List.last (f :: g :: rest) f)) as [lo Hlo].
    { apply (sortBy_elem seqCompare). rewrite Hs.
      apply last_elem. by apply last_List_last. }
    rewrite Hfo, Hlo in Hrun.
    destruct (foldE stopsMapStep (f :: g :: rest) ∅) as [e'|m] eqn:Hm.
    + apply stopsMap_inl_iff in Hm as (-> & ev & Hev & Hnone).
      injection Hrun as <-. split; [|done]. exists ev. split; [|done].
      apply (sortBy_elem seqCompare). by rewrite Hs.
    + destruct (departure_time f) as [dep|] eqn:Hdep.
      * destruct (fo <? lo); done.
      * injection Hrun as <-. split; [|done]. exists f. split; [|done].
        apply (sortBy_elem seqCompare). rewrite Hs. apply list_elem_of_here.
  - right.
    assert (Hdeps : forall e, e ∈ evs -> departure_time e <> None).
    { intros ev Hev Hnone. unfold classifyTrip in Hrun. cbn [fst snd] in Hrun.
      pose proof (sortBy_length seqCompare evs) as Hl.
      destruct (sortBy seqCompare evs) as [|f [|g rest]] eqn:Hs; simpl in Hl; [lia|lia|].
      destruct (Hloc f) as [fo Hfo];
        [apply (sortBy_elem seqCompare); rewrite Hs; apply list_elem_of_here|].
      destruct (Hloc (List.last (f :: g :: rest) f)) as [lo Hlo].
      { apply (sortBy_elem seqCompare). rewrite Hs.
        apply last_elem. by apply last_List_last. }
      rewrite Hfo, Hlo in Hrun.
      assert (Hm : foldE stopsMapStep (f :: g :: rest) ∅ = inl TypeError).
      { apply stopsMap_inl_iff. split; [done|]. exists ev. split; [|done].
        rewrite <- Hs. by apply sortBy_elem. }
      by rewrite Hm in Hrun. }
    split; [done|].
    pose proof Hrun as Hrun'.
    apply classifyTrip_inr in Hrun' as [->|(t & Ht & Hdir)].
    + exfalso. unfold classifyTrip in Hrun. cbn [fst snd] in Hrun.
      pose proof (sortBy_length seqCompare evs) as Hl.
      destruct (sortBy seqCompare evs) as [|f [|g rest]] eqn:Hs; simpl in Hl; [lia|lia|].
      destruct (Hloc f) as [fo Hfo];
        [apply (sortBy_elem seqCompare); rewrite Hs; apply list_elem_of_here|].
      destruct (Hloc (List.last (f :: g :: rest) f)) as [lo Hlo].
      { apply (sortBy_elem seqCompare). rewrite Hs.
        apply last_elem. by apply last_List_last. }
      rewrite Hfo, Hlo in Hrun.
      destruct (foldE stopsMapStep (f :: g :: rest) ∅); [done|].
      destruct (departure_time f); [|done].
      destruct (fo <? lo); injection Hrun as H1;
        apply (f_equal (fun p => (length p.1 + length p.2)%nat)) in H1;
        simpl in H1; rewrite length_app in H1; simpl in H1; lia.
    + exists t. split; [done|]. destruct Hdir as [[? ->]|[? ->]]; [left|right]; done.
Qed.

Lemma classifyTrip_step (c2o : gmap string Z)
    (acc : list ParsedTrip * list ParsedTrip) (g : field * list StopTime) :
  (forall e, e ∈ g.2 -> is_Some (c2o !! stop_id e)) ->
  (groupThrows g /\ classifyTrip c2o acc g = inl TypeError)
  \/ (~ groupThrows g /\ exists acc', classifyTrip c2o acc g = inr acc').
Proof.
  destruct g as [k evs]. unfold groupThrows. cbn [fst snd]. intros Hloc.
  destruct (decide (2 <= length evs)%nat) as [Hlen|Hlen].
  - destruct (classifyTrip_located c2o acc k evs Hloc Hlen)
      as [[Hex ->]|(Hdeps & t & _ & [[_ ->]|[_ ->]])].
    + by left.
    + right. split; [|by eexists]. intros (_ & e & He & Hn). by apply (Hdeps e).
    + right. split; [|by eexists]. intros (_ & e & He & Hn). by apply (Hdeps e).
  - right. split; [naive_solver|].
    rewrite classifyTrip_short by lia. by eexists.
Qed.

Lemma classifyAll_inl_iff (c2o : gmap string Z) (groups : list (field * list StopTime))
    (e : Error) :
  groupsLocated c2o groups ->
  classifyAll c2o groups = inl e <->
  e = TypeError /\ exists g, g ∈ groups /\ groupThrows g.
Proof.
  intros Hloc. unfold classifyAll. apply foldE_inl_iff.
  intros acc [k evs] Hin. apply classifyTrip_step.
  intros ev Hev. by apply (Hloc k evs).
Qed.

Lemma classifyAll_listing (c2o : gmap string Z) (groups : list (field * list StopTime))
    (both : list ParsedTrip * list ParsedTrip) :
  groupsLocated c2o groups ->
  classifyAll c2o groups = inr both ->
  (id <$> (both.1 ++ both.2)%list) ≡ₚ listedKeys groups
  /\ (id <$> both.1) `sublist_of` groups.*1
  /\ (id <$> both.2) `sublist_of` groups.*1.
Proof.
  intros Hloc. unfold classifyAll.
  apply (foldE_prefix (fun pre acc =>
           (id <$> (acc.1 ++ acc.2)%list) ≡ₚ listedKeys pre
           /\ (id <$> acc.1) `sublist_of` pre.*1
           /\ (id <$> acc.2) `sublist_of` pre.*1)); [|done].
  intros pre [k evs] acc acc' Hin (Hp & Hs1 & Hs2) Hrun.
  unfold listedKeys in *. rewrite filter_app, !fmap_app, filter_cons, filter_nil.
  rewrite fmap_app in Hp. cbn [fst snd].
  destruct (decide (2 <= length evs)%nat) as [Hlen|Hlen].
  - destruct (classifyTrip_located c2o acc k evs) as [[_ Hthr]|(_ & t & Ht & Hdir)];
      [intros ev Hev; by apply (Hloc k evs)|done|congruence|].
    destruct Ht as (_ & Hid & _).
    destruct Hdir as [[_ Heq]|[_ Heq]]; rewrite Heq in Hrun; injection Hrun as <-;
      cbn [fst snd]; rewrite ?fmap_app in *; simpl; rewrite Hid.
    + split; [|split].
      * rewrite <- Hp. rewrite <- !(assoc_L (++)).
        apply Permutation_app_head. simpl. apply Permutation_cons_append.
      * by apply sublist_app.
      * by apply sublist_inserts_r.
    + split; [|split].
      * rewrite <- Hp. by rewrite !(assoc_L (++)).
      * by apply sublist_inserts_r.
      * by apply sublist_app.
  - rewrite classifyTrip_short in Hrun by lia. injection Hrun as <-.
    simpl. rewrite app_nil_r. split; [done|].
    split; by apply sublist_inserts_r.
Qed.

Lemma tripStops_located (content : gmap string string) (d : DateInfo)
    (groups : list (field * list StopTime)) :
  tripStopsOf content d = inr groups ->
  groupsLocated (mkCodeToOrder GIPUZKOA_STATIONS) groups.
Proof.
  intros Hg k evs e Hin He. unfold tripStopsOf in Hg.
  apply stopTimesPass_valid in Hg as [_ Hall].
  rewrite Forall_forall in Hall. destruct (Hall _ Hin) as [_ Hevs].
  rewrite Forall_forall in Hevs. by apply codes_orders_agree, Hevs.
Qed.

(** ** The outcome of a run *)

Lemma parseGTFS_success (lc : string -> string -> Z) (content : gmap string string)
    (d : DateInfo) (r : Result) :
  (parseGTFS lc content d).2 = inr r ->
  exists groups both,
    tripStopsOf content d = inr groups
    /\ NoDup groups.*1
    /\ groupsLocated (mkCodeToOrder GIPUZKOA_STATIONS) groups
    /\ classifyAll (mkCodeToOrder GIPUZKOA_STATIONS) groups = inr both
    /\ classified (mkCodeToOrder GIPUZKOA_STATIONS) groups both
    /\ toBrinkola r = sortBy (timeCompare lc) both.1
    /\ toIrun r = sortBy (timeCompare lc) both.2.
Proof.
  intros Hr. apply parseGTFS_inr in Hr as (groups & both & Hg & Hall & HB & HI).
  exists groups, both.
  pose proof (stopTimesPass_valid _ _ _ _ Hg) as [Hnd _].
  split; [done|]. split; [done|]. split; [by eapply tripStops_located|].
  split; [done|]. split; [by apply classifyAll_classified|]. done.
Qed.

(** X5. On a run that returns, the trips of the two lists taken together
    are, one for one, the trip identifiers whose group has at least two
    in-corridor stop events: none of those is left out and none is listed
    twice, so the two lists hold as many trips as there are such groups. *)
Theorem every_group_is_listed (lc : string -> string -> Z)
    (content : gmap string string) (d : DateInfo) (r : Result) :
  (parseGTFS lc content d).2 = inr r ->
  exists groups, tripStopsOf content d = inr groups
    /\ (id <$> (toBrinkola r ++ toIrun r)%list) ≡ₚ listedKeys groups
    /\ (length (toBrinkola r) + length (toIrun r) = length (listedKeys groups))%nat.
Proof.
  intros Hr.
  apply parseGTFS_success in Hr as (groups & both & Hg & _ & Hloc & Hall & _ & HB & HI).
  exists groups. split; [done|].
  destruct (classifyAll_listing _ _ _ Hloc Hall) as (Hp & _ & _).
  assert (Hperm : (id <$> (toBrinkola r ++ toIrun r)%list) ≡ₚ listedKeys groups).
  { rewrite <- Hp, HB, HI. by rewrite !sortBy_Permutation. }
  split; [done|].
  apply Permutation_length in Hperm. by rewrite length_fmap, length_app in Hperm.
Qed.

Lemma every_group_is_listed_witness :
  exists groups, tripStopsOf Feed.full Feed.monday = inr groups
    /\ (length (toBrinkola Feed.fullResult) + length (toIrun Feed.fullResult)
        = length (listedKeys groups))%nat.
Proof.
  destruct (every_group_is_listed codeUnitCompare Feed.full Feed.monday Feed.fullResult)
    as (groups & Hg & _ & Hlen).
  - vm_compute. reflexivity.
  - exists groups. split; [exact Hg|exact Hlen].
Defined.

(** ** Order of the groups *)

Lemma filter_filter_iff {A} (P Q R : A -> Prop) `{!forall x, Decision (P x)}
    `{!forall x, Decision (Q x)} `{!forall x, Decision (R x)} (l : list A) :
  (forall x, R x <-> P x /\ Q x) -> filter R l = filter P (filter Q l).
Proof.
  intros Hiff. induction l as [|x l IH]; [done|].
  rewrite (filter_cons R), (filter_cons Q).
  destruct (decide (R x)) as [HR|HR], (decide (Q x)) as [HQ|HQ].
  - rewrite filter_cons_True by (by apply Hiff). by rewrite IH.
  - apply Hiff in HR. naive_solver.
  - rewrite filter_cons_False by (intros HP; apply HR, Hiff; by split). done.
  - done.
Qed.

Lemma pushStop_fst (k : field) (e : StopTime) (g : list (field * list StopTime)) :
  (pushStop k e g).*1 = if decide (k ∈ g.*1) then g.*1 else (g.*1 ++ [k])%list.
Proof.
  induction g as [|[k' v] g IH]; [done|].
  cbn [pushStop]. rewrite !fmap_cons. cbn [fst].
  destruct (decide (k' = k)) as [->|Hne].
  - rewrite fmap_cons. cbn [fst]. by rewrite decide_True by apply list_elem_of_here.
  - rewrite fmap_cons, IH. cbn [fst].
    destruct (decide (k ∈ g.*1)) as [Hin|Hin].
    + by rewrite decide_True by (by apply list_elem_of_further).
    + rewrite decide_False; [done|].
      intros Hk. apply elem_of_cons in Hk as [->|?]; done.
Qed.

(** The keys of the groups are the trip identifiers of the stop events in
    the order in which they first occur. *)
Lemma keys_fold (es : list StopTime) (g : list (field * list StopTime)) :
  (fold_left (fun g e => pushStop (trip_id e) e g) es g).*1
  = (g.*1 ++ filter (fun k => k ∉ g.*1) (firstOccurrences (trip_id <$> es)))%list.
Proof.
  revert g. induction es as [|e es IH]; intros g.
  - simpl. by rewrite app_nil_r.
  - cbn [fold_left]. rewrite IH, pushStop_fst, fmap_cons. cbn [firstOccurrences].
    rewrite filter_cons.
    destruct (decide (trip_id e ∈ g.*1)) as [Hin|Hin].
    + rewrite decide_False by (intros H; by apply H). f_equal.
      apply filter_filter_iff. intros x. split; [|naive_solver].
      intros Hx. split; [done|]. by intros ->.
    + rewrite decide_True by done. rewrite <- (assoc_L (++)). f_equal. simpl. f_equal.
      apply filter_filter_iff. intros x.
      rewrite elem_of_app, list_elem_of_singleton. naive_solver.
Qed.

Lemma filter_none (l : list field) : filter (fun k => k ∉ @nil field) l = l.
Proof.
  induction l as [|x l IH]; [done|].
  rewrite filter_cons_True by apply not_elem_of_nil. by rewrite IH.
Qed.

Lemma group_keys (activeTrips : gset field) (valid : gset string) (txt : string)
    (groups : list (field * list StopTime)) :
  stopTimesPass activeTrips valid txt = inr groups ->
  groups.*1 = firstOccurrences (trip_id <$> survivingEvents activeTrips valid txt).
Proof.
  intros Hrun. unfold stopTimesPass, survivingEvents, rawLines, headersOf in *.
  rewrite stopTimes_fold_ok in Hrun.
  - injection Hrun as <-. rewrite keys_fold. simpl. apply filter_none.
  - intros line Hin Hthr.
    rewrite (stopTimes_fold_throws _ _ _ _ _ (ex_intro _ line (conj Hin Hthr))) in Hrun.
    done.
Qed.

(** X6. Trips of one list that share a sort key (zero-padded HH:MM:SS, on
    which the collation agrees with plain comparison) are listed in the
    order in which their trip identifiers first occur among the surviving
    stop_times.txt lines: their identifiers, in list order, are picked in
    that order from the identifiers of the surviving stop events, each
    taken at its first occurrence. *)
Theorem ties_keep_feed_order (lc : string -> string -> Z)
    (content : gmap string string) (d : DateInfo) (r : Result) :
  (forall a b, isTime a = true -> isTime b = true -> (lc a b <= 0 <-> lexLe a b)) ->
  (parseGTFS lc content d).2 = inr r ->
  (forall t, t ∈ (toBrinkola r ++ toIrun r)%list ->
     isTime (departureFromOrigin t) = true) ->
  forall key,
    (id <$> filter (fun t => departureFromOrigin t = key) (toBrinkola r))
      `sublist_of`
      firstOccurrences
        (trip_id <$> survivingEvents (activeTripsOf content d)
                       (mkValidStopCodes GIPUZKOA_STATIONS) (stopTimesText content))
    /\ (id <$> filter (fun t => departureFromOrigin t = key) (toIrun r))
         `sublist_of`
         firstOccurrences
           (trip_id <$> survivingEvents (activeTripsOf content d)
                          (mkValidStopCodes GIPUZKOA_STATIONS) (stopTimesText content)).
Proof.
  intros Hlc Hr Htimes key.
  apply parseGTFS_success in Hr as (groups & both & Hg & _ & Hloc & Hall & _ & HB & HI).
  destruct (classifyAll_listing _ _ _ Hloc Hall) as (_ & Hs1 & Hs2).
  unfold tripStopsOf in Hg. apply group_keys in Hg. unfold stopTimesText.
  rewrite <- Hg.
  assert (Hstable : forall l, (forall t, t ∈ l -> isTime (departureFromOrigin t) = true) ->
            filter (fun t => departureFromOrigin t = key) (sortBy (timeCompare lc) l)
            = filter (fun t => departureFromOrigin t = key) l).
  { intros l Hl. apply sortBy_stable. intros x y Hx _ Hkx Hky.
    unfold sortCompare, timeCompare. simpl. rewrite Hkx, Hky.
    specialize (Hl x Hx). rewrite Hkx in Hl.
    apply Hlc; [done..|]. by destruct (lexLe_total key key). }
  split.
  - rewrite HB, Hstable.
    + etrans; [|exact Hs1]. apply fmap_sublist, sublist_filter.
    + intros t Ht. apply Htimes, elem_of_app. left. rewrite HB. by apply sortBy_elem.
  - rewrite HI, Hstable.
    + etrans; [|exact Hs2]. apply fmap_sublist, sublist_filter.
    + intros t Ht. apply Htimes, elem_of_app. right. rewrite HI. by apply sortBy_elem.
Qed.

Lemma ties_keep_feed_order_witness :
  id <$> filter (fun t => departureFromOrigin t = "08:00:00")
           (toBrinkola Feed.busyResult)
  = [Some "C"; Some "B"]
  /\ firstOccurrences
       (trip_id <$> survivingEvents (activeTripsOf Feed.busy Feed.monday)
                      (mkValidStopCodes GIPUZKOA_STATIONS) (stopTimesText Feed.busy))
     = [Some "A"; Some "H"; Some "C"; Some "B"; Some "E"; Some "D"; Some "F"; Some "G"]
  /\ (id <$> filter (fun t => departureFromOrigin t = "08:00:00")
               (toBrinkola Feed.busyResult))
       `sublist_of`
       firstOccurrences
         (trip_id <$> survivingEvents (activeTripsOf Feed.busy Feed.monday)
                        (mkValidStopCodes GIPUZKOA_STATIONS) (stopTimesText Feed.busy)).
Proof.
  split; [vm_compute; reflexivity|]. split; [vm_compute; reflexivity|].
  refine (proj1 (ties_keep_feed_order codeUnitCompare Feed.busy Feed.monday
                   Feed.busyResult _ _ _ "08:00:00")).
  - intros a b _ _. apply codeUnitCompare_le.
  - vm_compute. reflexivity.
  - intros t Ht. vm_compute in Ht.
    repeat (apply elem_of_cons in Ht as [->|Ht]; [reflexivity|]).
    by apply elem_of_nil in Ht.
Defined.

(** X7. What a run ends with, case by case. It ends with the
    no-active-service error exactly when the resolved set is empty; with the
    missing-file error for trips.txt, then for stop_times.txt, when that
    file is absent or empty; with a TypeError when a line of an active trip
    has no stop cell, or else when a group of two or more stop events holds
    one without a departure time; and it returns, with the formatted date,
    in all other cases. *)
Theorem outcome_of_a_run (lc : string -> string -> Z) (content : gmap string string)
    (d : DateInfo) :
  match (parseGTFS lc content d).2 with
  | inl (NoActiveService s) =>
      s = formattedDate d /\ size (activeServicesOf content d) = 0%nat
  | inl (MissingFile f) =>
      size (activeServicesOf content d) <> 0%nat
      /\ ((f = "trips.txt" /\ truthy (readFile content "trips.txt") = false)
          \/ (f = "stop_times.txt" /\ truthy (readFile content "trips.txt") = true
              /\ truthy (readFile content "stop_times.txt") = false))
  | inl TypeError =>
      size (activeServicesOf content d) <> 0%nat
      /\ truthy (readFile content "trips.txt") = true
      /\ truthy (readFile content "stop_times.txt") = true
      /\ ((exists line, line ∈ rawLines (stopTimesText content)
             /\ rowThrows (stopTimesIdx (headersOf (stopTimesText content)))
                  (activeTripsOf content d) line)
          \/ (exists groups g, tripStopsOf content d = inr groups
                /\ g ∈ groups /\ groupThrows g))
  | inr r =>
      size (activeServicesOf content d) <> 0%nat
      /\ truthy (readFile content "trips.txt") = true
      /\ truthy (readFile content "stop_times.txt") = true
      /\ dateUsed r = formattedDate d
      /\ (forall line, line ∈ rawLines (stopTimesText content) ->
            ~ rowThrows (stopTimesIdx (headersOf (stopTimesText content)))
                (activeTripsOf content d) line)
      /\ exists groups, tripStopsOf content d = inr groups
           /\ forall g, g ∈ groups -> ~ groupThrows g
  end.
Proof.
  rewrite parseGTFS_unfold.
  destruct (size (activeServicesOf content d) =? 0)%nat eqn:Hsz.
  { apply Nat.eqb_eq in Hsz. done. }
  apply Nat.eqb_neq in Hsz.
  destruct (truthy (readFile content "trips.txt")) eqn:Htr; simpl; [|by split; [|left]].
  destruct (truthy (readFile content "stop_times.txt")) eqn:Hst; simpl;
    [|by split; [|right]].
  destruct (tripStopsOf content d) as [e|groups] eqn:Hg; simpl.
  - unfold tripStopsOf in Hg. fold (stopTimesText content) in Hg.
    apply stopTimes_fold_inl in Hg as (-> & Hex). split; [done|].
    split; [done|]. split; [done|]. by left.
  - pose proof (tripStops_located _ _ _ Hg) as Hloc.
    destruct (classifyAll _ groups) as [e|both] eqn:Hall.
    + apply (classifyAll_inl_iff _ _ _ Hloc) in Hall as (-> & g & Hin & Hthr).
      split; [done|]. split; [done|]. split; [done|]. right. by exists groups, g.
    + split; [done|]. split; [done|]. split; [done|]. split; [done|]. split.
      * intros line Hin Hthr. unfold tripStopsOf in Hg.
        fold (stopTimesText content) in Hg. unfold stopTimesPass in Hg.
        rewrite (stopTimes_fold_throws _ _ _ _ _ (ex_intro _ line (conj Hin Hthr))) in Hg.
        done.
      * exists groups. split; [done|]. intros g Hin Hthr.
        assert (Hbad : classifyAll (mkCodeToOrder GIPUZKOA_STATIONS) groups
                       = inl TypeError)
          by (apply (classifyAll_inl_iff _ _ _ Hloc); split; [done|by exists g]).
        congruence.
Qed.

(** X8. Whatever the outcome, the messages reported are the first ones of
    the five, as many as phases were started: two before the
    no-active-service error, three before a missing trips.txt, four before
    a missing stop_times.txt or a throw of the stop-times loop, five before
    a throw of the classification and on success. *)
Theorem progress_is_a_prefix (lc : string -> string -> Z)
    (content : gmap string string) (d : DateInfo) :
  (parseGTFS lc content d).1
  = take (stageOf content d (parseGTFS lc content d).2)
      [msgDate d; msgCalendar; msgTrips (size (activeServicesOf content d));
       msgStopTimes; msgDirections].
Proof.
  rewrite parseGTFS_unfold. unfold stageOf.
  destruct (size (activeServicesOf content d) =? 0)%nat; [done|].
  destruct (negb (truthy (readFile content "trips.txt"))); [done|].
  destruct (negb (truthy (readFile content "stop_times.txt"))); [done|].
  destruct (tripStopsOf content d) as [e|groups] eqn:Hg.
  - pose proof Hg as Hg'. unfold tripStopsOf in Hg'.
    apply stopTimes_fold_inl in Hg' as [-> _]. done.
  - cbn [snd]. destruct (classifyAll _ groups) as [e|both] eqn:Hall; [|done].
    pose proof (tripStops_located _ _ _ Hg) as Hloc.
    apply (classifyAll_inl_iff _ _ _ Hloc) in Hall as [-> _]. done.
Qed.

(** ** The station-to-time mapping *)

Lemma stopsMap_lookup (l : list StopTime) (m0 m : gmap string string) (c : string) :
  foldE stopsMapStep l m0 = inr m ->
  m !! c = match last (filter (fun e => stop_id e = c) l) with
           | Some e => substring0 5 <$> departure_time e
           | None => m0 !! c
           end.
Proof.
  revert m0. induction l as [|e l IH]; intros m0 Hrun; simpl in Hrun.
  - by injection Hrun as <-.
  - unfold stopsMapStep at 1 in Hrun.
    destruct (departure_time e) as [dep|] eqn:Hdep; [|done].
    rewrite (IH _ Hrun), filter_cons.
    destruct (decide (stop_id e = c)) as [Hc|Hc].
    + rewrite last_cons.
      destruct (last (filter (fun e0 => stop_id e0 = c) l)); [done|].
      by rewrite Hc, lookup_insert_eq, Hdep.
    + destruct (last (filter (fun e0 => stop_id e0 = c) l)); [done|].
      by rewrite lookup_insert_ne.
Qed.

Lemma substring0_length (n : nat) (s : string) :
  (String.length (substring0 n s) <= n)%nat.
Proof.
  revert s. induction n as [|n IH]; intros [|c s]; simpl; try lia.
  specialize (IH s). lia.
Qed.

(** X9. For a listed trip, the station codes that have a time are the codes
    of the stop events of its group, and every time is the first five
    characters of the departure time of a stop event of the group at that
    code, so no time is longer than five characters. When the stop
    sequences of the group are integers of magnitude at most 2^53, that
    event is the last one in sequence order among the events at that code:
    a later call at a station overwrites an earlier one. *)
Theorem mapping_last_write_wins (lc : string -> string -> Z)
    (content : gmap string string) (d : DateInfo) (r : Result) :
  (parseGTFS lc content d).2 = inr r ->
  exists groups, tripStopsOf content d = inr groups
    /\ forall t, t ∈ (toBrinkola r ++ toIrun r)%list ->
         (forall c, is_Some (stops t !! c)
                    <-> exists e, e ∈ groupOf (id t) groups /\ stop_id e = c)
         /\ (forall c v, stops t !! c = Some v ->
               (String.length v <= 5)%nat
               /\ exists e dep,
                    e ∈ groupOf (id t) groups /\ stop_id e = c
                    /\ departure_time e = Some dep /\ v = substring0 5 dep
                    /\ (Forall (fun e => safeSequence e = true)
                          (groupOf (id t) groups) ->
                        lastInSequence
                          (filter (fun e => stop_id e = c) (groupOf (id t) groups))
                          e)).
Proof.
  intros Hr.
  apply parseGTFS_success in Hr as (groups & both & Hg & Hnd & _ & _ & Hcl & HB & HI).
  exists groups. split; [done|]. intros t Ht.
  assert (Hin : t ∈ (both.1 ++ both.2)%list).
  { apply elem_of_app in Ht. apply elem_of_app. rewrite HB, HI in Ht.
    by rewrite !sortBy_elem in Ht. }
  destruct Hcl as (_ & _ & H3 & _).
  destruct (H3 t Hin) as (evs & Hevs & _ & _ & f & l & _ & _ & _ & _ & _ & Hm).
  apply (groupOf_elem _ _ _ Hnd) in Hevs as [_ Hgrp]. rewrite Hgrp.
  assert (Hlook : forall c,
            stops t !! c
            = last (filter (fun e => stop_id e = c) (sortBy seqCompare evs))
              ≫= (fun e => substring0 5 <$> departure_time e)).
  { intros c. rewrite (stopsMap_lookup _ _ _ c Hm).
    destruct (last _); [done|]. by rewrite lookup_empty. }
  assert (Hdep : forall e, e ∈ evs -> is_Some (departure_time e)).
  { intros e He. destruct (departure_time e) as [dep|] eqn:E; [by eexists|].
    assert (Hthrow : foldE stopsMapStep (sortBy seqCompare evs) ∅ = inl TypeError).
    { apply stopsMap_inl_iff. split; [done|]. exists e. by rewrite sortBy_elem. }
    congruence. }
  assert (Hlast : forall c v, stops t !! c = Some v ->
            exists e dep, last (filter (fun e => stop_id e = c) (sortBy seqCompare evs))
                          = Some e
              /\ e ∈ evs /\ stop_id e = c
              /\ departure_time e = Some dep /\ v = substring0 5 dep).
  { intros c v Hv. rewrite Hlook in Hv.
    destruct (last _) as [e|] eqn:El; [|done].
    change (substring0 5 <$> departure_time e = Some v) in Hv.
    destruct (departure_time e) as [dep|] eqn:Ed; [|done].
    change (Some (substring0 5 dep) = Some v) in Hv.
    apply last_elem, list_elem_of_filter in El as El'. destruct El' as [Hc He].
    apply sortBy_elem in He.
    exists e, dep. repeat split; [done..|congruence]. }
  split.
  - intros c. split.
    + intros [v Hv]. destruct (Hlast c v Hv) as (e & _ & _ & He & Hc & _). by exists e.
    + intros (e & He & Hc). rewrite Hlook.
      destruct (last _) as [e'|] eqn:El.
      * apply last_elem, list_elem_of_filter in El as [_ He'].
        apply sortBy_elem in He'. destruct (Hdep e' He') as [dep Hd].
        cbn [mbind option_bind]. rewrite Hd. by eexists.
      * apply last_None in El.
        assert (Hx : e ∈ filter (fun e => stop_id e = c) (sortBy seqCompare evs))
          by (apply list_elem_of_filter; by rewrite sortBy_elem).
        rewrite El in Hx. by apply elem_of_nil in Hx.
  - intros c v Hv. destruct (Hlast c v Hv) as (e & dep & El & He & Hc & Hd & ->).
    split; [apply substring0_length|].
    exists e, dep. repeat split; [done..|].
    intros Hsafe.
    by apply (sortBy_seq_ends (fun e => stop_id e = c) evs (safeSequence_numbers _ Hsafe)).
Qed.

Lemma mapping_last_write_wins_witness :
  exists groups t e dep,
    tripStopsOf Feed.busy Feed.monday = inr groups
    /\ toBrinkola Feed.busyResult !! 2%nat = Some t /\ id t = Some "F"
    /\ (departure_time <$> groupOf (Some "F") groups)
       = [Some "10:05:00"; Some "10:00:00"; Some "10:20:00"]
    /\ stops t !! "11600" = Some "10:05"
    /\ departure_time e = Some dep /\ "10:05" = substring0 5 dep
    /\ lastInSequence
         (filter (fun e => stop_id e = "11600") (groupOf (Some "F") groups)) e.
Proof.
  destruct (mapping_last_write_wins codeUnitCompare Feed.busy Feed.monday
              Feed.busyResult) as (groups & Hg & H); [vm_compute; reflexivity|].
  destruct (toBrinkola Feed.busyResult !! 2%nat) as [t|] eqn:E;
    [|vm_compute in E; discriminate E].
  assert (Ht : t ∈ (toBrinkola Feed.busyResult ++ toIrun Feed.busyResult)%list)
    by (apply elem_of_app; left; by eapply list_elem_of_lookup_2).
  assert (Hid : id <$> toBrinkola Feed.busyResult !! 2%nat = Some (Some "F"))
    by (vm_compute; reflexivity).
  assert (Hst : toBrinkola Feed.busyResult !! 2%nat ≫= (fun t => stops t !! "11600")
                = Some "10:05") by (vm_compute; reflexivity).
  rewrite E in Hid, Hst. injection Hid as Hid.
  change (stops t !! "11600" = Some "10:05") in Hst.
  destruct (H t Ht) as [_ Hv].
  destruct (Hv "11600" "10:05" Hst) as (_ & e & dep & _ & _ & Hd & Hs & Hl).
  rewrite Hid in Hl.
  assert (Hc : inr groups = tripStopsOf Feed.busy Feed.monday) by (by rewrite Hg).
  vm_compute in Hc. injection Hc as ->.
  eexists _, t, e, dep.
  split; [vm_compute; reflexivity|]. split; [reflexivity|]. split; [exact Hid|].
  split; [reflexivity|]. split; [exact Hst|].
  split; [exact Hd|]. split; [exact Hs|].
  apply Hl. repeat constructor.
Defined.

Lemma mkCodeToOrder_elem (stations : list StationDef) (c : string) (o : Z) :
  mkCodeToOrder stations !! c = Some o ->
  exists s, s ∈ stations /\ codigo s = c /\ orden s = o.
Proof.
  unfold mkCodeToOrder.
  assert (H : forall m0 : gmap string Z,
             fold_left (fun acc s => <[ codigo s := orden s ]> acc) stations m0 !! c
             = Some o ->
             m0 !! c = Some o \/ exists s, s ∈ stations /\ codigo s = c /\ orden s = o).
  { induction stations as [|s l IH]; intros m0 Hm; simpl in Hm; [by left|].
    destruct (IH _ Hm) as [Hm0|(s' & Hin & ?)].
    - destruct (decide (codigo s = c)) as [Hc|Hc].
      + rewrite Hc, lookup_insert_eq in Hm0. injection Hm0 as <-.
        right. exists s. split; [apply list_elem_of_here|done].
      + rewrite lookup_insert_ne in Hm0 by done. by left.
    - right. exists s'. split; [by apply list_elem_of_further|done]. }
  intros Hm. destruct (H _ Hm) as [Hm0|?]; [|done]. by rewrite lookup_empty in Hm0.
Qed.

Lemma stations_orden_range :
  Forall (fun s => 1 <= orden s <= 27) GIPUZKOA_STATIONS.
Proof. unfold GIPUZKOA_STATIONS. repeat constructor; simpl; lia. Qed.

Lemma valid_codes_size : size (mkValidStopCodes GIPUZKOA_STATIONS) = 27%nat.
Proof. vm_compute. reflexivity. Qed.

(** X10. A listed trip never leaves the corridor table: the keys of its
    mapping are station codes of the table, so the mapping has at most 27
    entries, and its first and last positions are positions of the table,
    between 1 and 27. *)
Theorem trips_within_corridor (lc : string -> string -> Z)
    (content : gmap string string) (d : DateInfo) (r : Result) :
  (parseGTFS lc content d).2 = inr r ->
  forall t, t ∈ (toBrinkola r ++ toIrun r)%list ->
    dom (stops t) ⊆ mkValidStopCodes GIPUZKOA_STATIONS
    /\ (size (stops t) <= 27)%nat
    /\ 1 <= firstStopOrder t <= 27
    /\ 1 <= lastStopOrder t <= 27.
Proof.
  intros Hr t Ht.
  apply parseGTFS_success in Hr as (groups & both & Hg & Hnd & _ & _ & Hcl & HB & HI).
  assert (Hin : t ∈ (both.1 ++ both.2)%list).
  { apply elem_of_app in Ht. apply elem_of_app. rewrite HB, HI in Ht.
    by rewrite !sortBy_elem in Ht. }
  destruct Hcl as (_ & _ & H3 & _).
  destruct (H3 t Hin) as (evs & Hevs & _ & _ & f & l & _ & _ & Hfo & Hlo & _ & Hm).
  unfold tripStopsOf in Hg. apply stopTimesPass_valid in Hg as [_ Hall].
  rewrite Forall_forall in Hall. destruct (Hall _ Hevs) as [_ Hcodes].
  rewrite Forall_forall in Hcodes. simpl in Hcodes.
  assert (Hdom : dom (stops t) ⊆ mkValidStopCodes GIPUZKOA_STATIONS).
  { intros c Hc. apply (stopsMap_dom _ _ _ Hm) in Hc as [Hc|(e & He & <-)].
    - by rewrite dom_empty in Hc.
    - apply Hcodes. by apply sortBy_elem in He. }
  split; [done|]. split.
  { rewrite <- size_dom, <- valid_codes_size. by apply subseteq_size. }
  pose proof stations_orden_range as Hrange. rewrite Forall_forall in Hrange.
  apply mkCodeToOrder_elem in Hfo as (s1 & Hs1 & _ & <-).
  apply mkCodeToOrder_elem in Hlo as (s2 & Hs2 & _ & <-).
  split; by apply Hrange.
Qed.

Lemma trips_within_corridor_witness :
  Forall (fun t => 1 <= firstStopOrder t <= 27)
    (toBrinkola Feed.fullResult ++ toIrun Feed.fullResult)%list.
Proof.
  apply Forall_forall. intros t Ht.
  refine (proj1 (proj2 (proj2
            (trips_within_corridor codeUnitCompare Feed.full Feed.monday
               Feed.fullResult _ t Ht)))).
  vm_compute. reflexivity.
Defined.

(** ** The calendar files: tolerance, order, idempotence *)

Lemma indexOfFrom_absent (i : Z) (l : list string) (x : field) :
  x ∉ Some <$> l -> indexOfFrom i l x = -1.
Proof.
  revert i; induction l as [|h t IH]; intros i Hx; simpl; [done|].
  rewrite fmap_cons in Hx. apply not_elem_of_cons in Hx as [Hne Hx].
  destruct (decide (Some h = x)); [done|]. by apply IH.
Qed.

Lemma indexOf_absent (l : list string) (x : field) :
  x ∉ Some <$> l -> indexOf l x = -1.
Proof. apply indexOfFrom_absent. Qed.

(** X11. A calendar.txt whose header lacks service_id, the target weekday,
    start_date or end_date, and a calendar_dates.txt whose header lacks
    service_id, date or exception_type, are ignored as if the file were
    absent; no error is raised for them. *)
Theorem calendar_files_without_columns (d : DateInfo) (txt : string)
    (other : option string) :
  ("service_id" ∉ headersOf txt \/ dayName d ∉ Some <$> headersOf txt
   \/ "start_date" ∉ headersOf txt \/ "end_date" ∉ headersOf txt ->
   resolveServices d (Some txt) other = resolveServices d None other)
  /\ ("service_id" ∉ headersOf txt \/ "date" ∉ headersOf txt
      \/ "exception_type" ∉ headersOf txt ->
      resolveServices d other (Some txt) = resolveServices d other None).
Proof.
  split; intros Hcol; unfold resolveServices.
  - f_equal. unfold whenPresent at 1 2. destruct (truthy (Some txt)); [|done].
    unfold calendarPass.
    assert (calendarIdxOk (calendarIdx (headerOf (split LF txt)) (dayName d)) = false)
      as ->; [|done].
    unfold calendarIdxOk, calendarIdx, headersOf in *; simpl.
    destruct Hcol as [H|[H|[H|H]]].
    + by rewrite (indexOf_not_elem _ _ H).
    + rewrite (indexOf_absent _ _ H). by rewrite andb_false_r.
    + rewrite (indexOf_not_elem _ _ H). by rewrite andb_false_r.
    + rewrite (indexOf_not_elem _ _ H). by rewrite andb_false_r.
  - unfold whenPresent at 1 3. destruct (truthy (Some txt)); [|done].
    unfold exceptionPass.
    assert (datesIdxOk (datesIdx (headerOf (split LF txt))) = false) as ->; [|done].
    unfold datesIdxOk, datesIdx, headersOf in *; simpl.
    destruct Hcol as [H|[H|H]].
    + by rewrite (indexOf_not_elem _ _ H).
    + rewrite (indexOf_not_elem _ _ H). by rewrite andb_false_r.
    + rewrite (indexOf_not_elem _ _ H). by rewrite andb_false_r.
Qed.

Lemma calendar_files_without_columns_witness :
  resolveServices Feed.monday (Some Feed.trips) (Some Feed.calendarDates)
  = resolveServices Feed.monday None (Some Feed.calendarDates).
Proof.
  apply (calendar_files_without_columns Feed.monday Feed.trips (Some Feed.calendarDates)).
  right. right. left. vm_compute. intros H.
  repeat (apply elem_of_cons in H as [H|H]; [discriminate|]).
  by apply elem_of_nil in H.
Defined.

(** X12. The base-calendar pass does not depend on the order of the data
    lines nor on their repetition: two calendar.txt texts with the same
    header line and the same data lines, in any order and any number of
    times, give the same set. *)
Theorem calendar_rows_in_any_order (date : string) (day : field) (txt1 txt2 : string)
    (A : gset field) :
  hd EmptyString (split LF txt1) = hd EmptyString (split LF txt2) ->
  (forall raw, raw ∈ tl (split LF txt1) <-> raw ∈ tl (split LF txt2)) ->
  calendarPass date day txt1 A = calendarPass date day txt2 A.
Proof.
  intros Hh Hl. unfold calendarPass, headerOf. rewrite Hh.
  destruct (calendarIdxOk _); [|done].
  apply set_eq. intros s. rewrite !calendar_fold_elem.
  split; (intros [?|(raw & Hin & ?)]; [by left|right; exists raw]); by split; [apply Hl|].
Qed.

Lemma calendar_rows_in_any_order_witness :
  calendarPass "20240603" (Some "monday")
    (unlines ["service_id,monday,start_date,end_date";
              "S1,1,20240101,20241231"; "S2,1,20240601,20240630"]) ∅
  = calendarPass "20240603" (Some "monday")
      (unlines ["service_id,monday,start_date,end_date";
                "S2,1,20240601,20240630"; "S1,1,20240101,20241231";
                "S2,1,20240601,20240630"]) ∅.
Proof.
  apply calendar_rows_in_any_order.
  - vm_compute. reflexivity.
  - intros raw. vm_compute. set_solver.
Defined.

Lemma verdict_constant_or_identity (idx : DatesIdx) (date : string) (s : field)
    (lines : list string) :
  (forall b b', verdict idx date s lines b = verdict idx date s lines b')
  \/ (forall b, verdict idx date s lines b = b).
Proof.
  unfold verdict. induction lines as [|l ls IH]; simpl; [by right|].
  destruct (rowDecides idx date s l) as [b0|]; simpl; [by left|].
  destruct IH as [IH|IH]; [left|right]; done.
Qed.

(** X13. Both resolution passes are idempotent as a whole: running the
    base-calendar pass, or the exception pass, a second time over the same
    text changes nothing; and the base-calendar pass never removes a
    service. *)
Theorem resolution_passes_idempotent (date : string) (day : field) (txt : string)
    (A : gset field) :
  calendarPass date day txt (calendarPass date day txt A) = calendarPass date day txt A
  /\ A ⊆ calendarPass date day txt A
  /\ exceptionPass date txt (exceptionPass date txt A) = exceptionPass date txt A.
Proof.
  split; [|split].
  - unfold calendarPass. destruct (calendarIdxOk _); [|done].
    apply set_eq. intros s. rewrite !calendar_fold_elem. naive_solver.
  - unfold calendarPass. destruct (calendarIdxOk _); [|done].
    intros s Hs. apply calendar_fold_elem. by left.
  - unfold exceptionPass. destruct (datesIdxOk _); [|done].
    apply set_eq. intros s. rewrite exception_fold_elem.
    set (idx := datesIdx (headerOf (split LF txt))).
    set (lines := tl (split LF txt)).
    destruct (verdict_constant_or_identity idx date s lines) as [Hc|Hi].
    + rewrite (Hc _ (bool_decide (s ∈ A))). symmetry. apply exception_fold_elem.
    + rewrite Hi. apply bool_decide_eq_true.
Qed.

(** ** Trimming and number parsing *)

Lemma trimStart_white (pre s : string) :
  allWhite pre = true -> trimStart (pre ++ s) = trimStart s.
Proof.
  induction pre as [|c pre IH]; simpl; [done|].
  intros [Hc Hpre]%andb_true_iff. rewrite Hc. by apply IH.
Qed.

Lemma trimEnd_white_all (post : string) : allWhite post = true -> trimEnd post = "".
Proof.
  induction post as [|c post IH]; simpl; [done|].
  intros [Hc Hpost]%andb_true_iff. by rewrite (IH Hpost), Hc.
Qed.

Lemma trimEnd_white (s post : string) :
  allWhite post = true -> trimEnd (s ++ post) = trimEnd s.
Proof.
  intros Hpost. induction s as [|c s IH]; simpl.
  - by apply trimEnd_white_all.
  - by rewrite IH.
Qed.

Lemma trimEnd_idem (s : string) : trimEnd (trimEnd s) = trimEnd s.
Proof.
  induction s as [|c s IH]; simpl; [done|].
  destruct (isWhiteSpace c && isEmpty (trimEnd s)) eqn:E; [done|].
  simpl. by rewrite IH, E.
Qed.

Lemma trimStart_head (s : string) :
  trimStart s = "" \/ exists c r, trimStart s = String c r /\ isWhiteSpace c = false.
Proof.
  induction s as [|c s IH]; simpl; [by left|].
  destruct (isWhiteSpace c) eqn:E; [done|]. right. by exists c, s.
Qed.

(** A trimmed string has no white space at either end. *)
Lemma trim_trimmed (s : string) :
  trimStart (trim s) = trim s /\ trimEnd (trim s) = trim s.
Proof.
  unfold trim. split; [|apply trimEnd_idem].
  destruct (trimStart_head s) as [->|(c & r & -> & Hc)]; [done|].
  simpl. rewrite Hc. simpl. by rewrite Hc.
Qed.

Lemma trim_padded (pre s post : string) :
  allWhite pre = true -> allWhite post = true ->
  trim (pre ++ trim s ++ post) = trim s.
Proof.
  intros Hpre Hpost. destruct (trim_trimmed s) as [H1 H2].
  unfold trim at 1. rewrite (trimStart_white _ _ Hpre).
  destruct (trim s) as [|c r] eqn:E.
  - simpl. clear -Hpost. induction post as [|c post IH]; simpl; [done|].
    apply andb_true_iff in Hpost as [Hc Hpost]. rewrite Hc. by apply IH.
  - assert (Hc : isWhiteSpace c = false).
    { simpl in H1. destruct (isWhiteSpace c) eqn:Hc; [|done].
      exfalso. clear -H1.
      assert (Hlen : forall x, (String.length (trimStart x) <= String.length x)%nat).
      { induction x as [|a x IH]; simpl; [lia|]. destruct (isWhiteSpace a); simpl; lia. }
      specialize (Hlen r). rewrite H1 in Hlen. simpl in Hlen. lia. }
    change (String c r ++ post) with (String c (r ++ post)).
    cbn [trimStart]. rewrite Hc.
    change (String c (r ++ post)) with (String c r ++ post).
    by rewrite (trimEnd_white _ _ Hpost).
Qed.

Lemma valid_code_station (stations : list StationDef) (code : string) :
  code ∈ mkValidStopCodes stations -> exists s, s ∈ stations /\ codigo s = code.
Proof.
  intros [o Ho]%codes_orders_agree.
  apply mkCodeToOrder_elem in Ho as (s & Hs & Hc & _). by exists s.
Qed.

Lemma station_codes_trimmed :
  Forall (fun s => trim (codigo s) = codigo s) GIPUZKOA_STATIONS.
Proof. unfold GIPUZKOA_STATIONS. repeat constructor. Qed.

(** X14. [cleanId] strips the white space around a stop cell and nothing
    else: a cell made of an already trimmed text between blanks, tabs or a
    carriage return gives back that text; so a corridor station code padded
    in this way is still recognised as that station. On an undefined cell it
    throws. *)
Theorem cleanId_strips_padding (pre post : string) :
  allWhite pre = true -> allWhite post = true ->
  (forall s, cleanId (Some (pre ++ trim s ++ post)) = inr (trim s))
  /\ (forall code, code ∈ mkValidStopCodes GIPUZKOA_STATIONS ->
        cleanId (Some (pre ++ code ++ post)) = inr code)
  /\ cleanId None = inl TypeError.
Proof.
  intros Hpre Hpost. split; [|split; [|done]].
  - intros s. unfold cleanId. by rewrite trim_padded.
  - intros code Hcode. apply valid_code_station in Hcode as (s & Hs & <-).
    pose proof station_codes_trimmed as Ht. rewrite Forall_forall in Ht.
    rewrite <- (Ht s Hs). unfold cleanId. by rewrite trim_padded.
Qed.

Lemma cleanId_strips_padding_witness :
  cleanId (Some (" " ++ trim "11600" ++ String "013" "")) = inr (trim "11600").
Proof.
  apply (proj1 (cleanId_strips_padding " " (String "013" "") eq_refl eq_refl)).
Defined.

Lemma digitValue_digitChar (k : Z) :
  0 <= k <= 9 -> digitValue 10 (digitChar k) = Some k.
Proof.
  intros Hk.
  assert (k = 0 \/ k = 1 \/ k = 2 \/ k = 3 \/ k = 4 \/ k = 5 \/ k = 6 \/ k = 7
          \/ k = 8 \/ k = 9) as H by lia.
  destruct H as [->|[->|[->|[->|[->|[->|[->|[->|[->| ->]]]]]]]]]; reflexivity.
Qed.

Lemma showDigits_parse (fuel : nat) : forall (n : Z) (acc : string) (a : option Z),
  (1 <= fuel)%nat -> 0 <= n < 2 ^ Z.of_nat fuel ->
  exists k, 0 <= k
    /\ parseDigits 10 a (showDigits fuel n acc)
       = parseDigits 10 (Some (default 0 a * 10 ^ k + n)) acc.
Proof.
  induction fuel as [|f IH]; intros n acc a Hf Hn; [lia|].
  cbn [showDigits].
  destruct (n <? 10) eqn:E.
  - apply Z.ltb_lt in E. exists 1. split; [lia|].
    cbn [parseDigits]. rewrite Z.mod_small by lia.
    rewrite digitValue_digitChar by lia.
    by replace (default 0 a * 10 ^ 1 + n) with (default 0 a * 10 + n) by lia.
  - apply Z.ltb_ge in E.
    assert (Hf' : (1 <= f)%nat).
    { destruct f; [|lia]. simpl in Hn. lia. }
    assert (Hn' : 0 <= n / 10 < 2 ^ Z.of_nat f).
    { split; [apply Z.div_pos; lia|].
      rewrite Nat2Z.inj_succ, Z.pow_succ_r in Hn by lia.
      apply Z.div_lt_upper_bound; lia. }
    destruct (IH (n / 10) (String (digitChar (n mod 10)) acc) a Hf' Hn')
      as (k & Hk & ->).
    exists (k + 1). split; [lia|].
    cbn [parseDigits].
    rewrite digitValue_digitChar by (pose proof (Z.mod_pos_bound n 10); lia).
    cbn [default].
    replace (default 0 a * 10 ^ (k + 1) + n)
      with ((default 0 a * 10 ^ k + n / 10) * 10 + n mod 10); [done|].
    rewrite Z.pow_add_r by lia. pose proof (Z.div_mod n 10). lia.
Qed.

Lemma showDigits_app (fuel : nat) (n : Z) (acc rest : string) :
  showDigits fuel n acc ++ rest = showDigits fuel n (acc ++ rest).
Proof.
  revert n acc. induction fuel as [|f IH]; intros n acc; cbn [showDigits]; [done|].
  destruct (n <? 10); [done|]. by rewrite IH.
Qed.

(** The digits start with a decimal digit, and what follows the first is a
    decimal digit too, or the text the digits were put in front of. *)
Lemma showDigits_head (fuel : nat) : forall (n : Z) (acc : string),
  (1 <= fuel)%nat -> 0 <= n ->
  exists k r, 0 <= k <= 9 /\ showDigits fuel n acc = String (digitChar k) r
    /\ (r = acc \/ exists k' r', 0 <= k' <= 9 /\ r = String (digitChar k') r').
Proof.
  induction fuel as [|f IH]; intros n acc Hf Hn; [lia|].
  cbn [showDigits].
  assert (Hm : 0 <= n mod 10 <= 9) by (pose proof (Z.mod_pos_bound n 10); lia).
  destruct (n <? 10) eqn:E.
  - exists (n mod 10), acc. split; [done|]. split; [done|by left].
  - destruct f as [|f'].
    + cbn [showDigits]. exists (n mod 10), acc. split; [done|]. split; [done|by left].
    + destruct (IH (n / 10) (String (digitChar (n mod 10)) acc))
        as (k & r & Hk & -> & Hr); [lia|apply Z.div_pos; lia|].
      exists k, r. split; [done|]. split; [done|]. right.
      destruct Hr as [->|?]; [|done]. by exists (n mod 10), acc.
Qed.

Lemma digitChar_cases (k : Z) :
  0 <= k <= 9 ->
  digitChar k = "0"%char \/ digitChar k = "1"%char \/ digitChar k = "2"%char
  \/ digitChar k = "3"%char \/ digitChar k = "4"%char \/ digitChar k = "5"%char
  \/ digitChar k = "6"%char \/ digitChar k = "7"%char \/ digitChar k = "8"%char
  \/ digitChar k = "9"%char.
Proof.
  intros Hk.
  assert (k = 0 \/ k = 1 \/ k = 2 \/ k = 3 \/ k = 4 \/ k = 5 \/ k = 6 \/ k = 7
          \/ k = 8 \/ k = 9) as H by lia.
  destruct H as [->|[->|[->|[->|[->|[->|[->|[->|[->| ->]]]]]]]]]; vm_compute; tauto.
Qed.

(** On a text that starts with a decimal digit not followed by [x] or [X],
    [parseInt] reads decimal digits, and a minus sign in front negates. *)
Lemma parseInt_decimal (k : Z) (r : string) :
  0 <= k <= 9 ->
  (r = "" \/ exists c r', r = String c r' /\ Ascii.eqb c "x" = false
                          /\ Ascii.eqb c "X" = false) ->
  parseInt (Some (String (digitChar k) r))
  = parseDigits 10 None (String (digitChar k) r)
  /\ parseInt (Some (String "-" (String (digitChar k) r)))
     = Z.opp <$> parseDigits 10 None (String (digitChar k) r).
Proof.
  intros Hk Hr.
  assert (Hone : forall o : option Z, (fun v => 1 * v) <$> o = o)
    by (intros [v|]; simpl; [f_equal; lia|done]).
  assert (Hneg : forall o : option Z, (fun v => -1 * v) <$> o = Z.opp <$> o)
    by (intros [v|]; simpl; [f_equal; lia|done]).
  destruct (digitChar_cases k Hk) as [->|H].
  - destruct Hr as [->|(c & r' & -> & Hx & HX)]; [by split|].
    destruct c as [[] [] [] [] [] [] [] []]; try discriminate Hx; try discriminate HX;
      (unfold parseInt; simpl trimStart; split; [apply Hone|apply Hneg]).
  - destruct H as [->|[->|[->|[->|[->|[->|[->|[->| ->]]]]]]]];
      (unfold parseInt; simpl trimStart; split; [apply Hone|apply Hneg]).
Qed.

(** ** [parseInt] on decimal numbers *)

Lemma parseInt_white (pre s : string) :
  allWhite pre = true -> parseInt (Some (pre ++ s)) = parseInt (Some s).
Proof. intros Hpre. unfold parseInt. by rewrite (trimStart_white _ _ Hpre). Qed.

Lemma digitValue_not_digit (c : ascii) : isDigit c = false -> digitValue 10 c = None.
Proof.
  destruct c as [[] [] [] [] [] [] [] []]; intros H; try discriminate H; reflexivity.
Qed.

Lemma parseDigits_stops (v : Z) (rest : string) :
  stopsNumber rest = true -> parseDigits 10 (Some v) rest = Some v.
Proof.
  destruct rest as [|c r]; [done|]. simpl.
  intros [[Hd _]%andb_true_iff _]%andb_true_iff.
  apply negb_true_iff in Hd. by rewrite (digitValue_not_digit _ Hd).
Qed.

Lemma digitChar_not_x (k : Z) :
  0 <= k <= 9 ->
  Ascii.eqb (digitChar k) "x" = false /\ Ascii.eqb (digitChar k) "X" = false.
Proof.
  intros Hk.
  destruct (digitChar_cases k Hk) as [->|[->|[->|[->|[->|[->|[->|[->|[->| ->]]]]]]]]];
    by split.
Qed.

Lemma fuel_enough (n : Z) : 0 <= n -> 0 <= n < 2 ^ Z.of_nat (S (Z.to_nat (Z.log2 n))).
Proof.
  intros Hn. split; [done|].
  rewrite Nat2Z.inj_succ, Z2Nat.id by apply Z.log2_nonneg.
  destruct (decide (n = 0)) as [->|Hne]; [done|].
  apply Z.log2_spec. lia.
Qed.

Lemma showDigits_parseInt (fuel : nat) (n : Z) (rest : string) :
  (1 <= fuel)%nat -> 0 <= n < 2 ^ Z.of_nat fuel -> stopsNumber rest = true ->
  parseInt (Some (showDigits fuel n rest)) = Some n
  /\ parseInt (Some (String "-" (showDigits fuel n rest))) = Some (- n).
Proof.
  intros Hf Hn Hrest.
  assert (Hval : parseDigits 10 None (showDigits fuel n rest) = Some n).
  { destruct (showDigits_parse fuel n rest None Hf Hn) as (k & Hk & ->).
    simpl. by apply parseDigits_stops. }
  destruct (showDigits_head fuel n rest Hf (proj1 Hn)) as (k & r & Hk & Heq & Hr).
  assert (Hr' : r = "" \/ exists c r', r = String c r' /\ Ascii.eqb c "x" = false
                                       /\ Ascii.eqb c "X" = false).
  { destruct Hr as [->|(k' & r' & Hk' & ->)].
    - destruct rest as [|c r']; [by left|]. right. exists c, r'.
      simpl in Hrest.
      apply andb_true_iff in Hrest as [[_ Hx]%andb_true_iff HX].
      by rewrite negb_true_iff in Hx, HX.
    - right. exists (digitChar k'), r'. split; [done|]. by apply digitChar_not_x. }
  rewrite Heq in Hval |- *.
  destruct (parseInt_decimal k r Hk Hr') as [-> ->]. by rewrite Hval.
Qed.

(** X15. [parseInt] reads back a decimal number: for every integer [n] of
    magnitude at most 2^53 (the range in which the number the code holds is
    the integer itself), printed in decimal after any white space and
    followed by nothing or by a character that is neither a digit nor x nor
    X, the result is [n]; what follows the digits is ignored. *)
Theorem parseInt_reads_decimal (n : Z) (pre rest : string) :
  - 2 ^ 53 <= n <= 2 ^ 53 ->
  allWhite pre = true -> stopsNumber rest = true ->
  parseInt (Some (pre ++ showZ n ++ rest)) = Some n.
Proof.
  intros _ Hpre Hrest. rewrite (parseInt_white _ _ Hpre). unfold showZ.
  destruct (n <? 0) eqn:E.
  - apply Z.ltb_lt in E.
    set (F := S (Z.to_nat (Z.log2 (- n)))).
    assert (HF : (1 <= F)%nat) by (unfold F; lia).
    assert (Hb : 0 <= - n < 2 ^ Z.of_nat F) by (apply fuel_enough; lia).
    clearbody F.
    change (String "-" (showDigits F (- n) "") ++ rest)
      with (String "-" (showDigits F (- n) "" ++ rest)).
    rewrite showDigits_app. change ("" ++ rest) with rest.
    destruct (showDigits_parseInt F (- n) rest HF Hb Hrest) as [_ ->].
    f_equal. lia.
  - apply Z.ltb_ge in E.
    set (F := S (Z.to_nat (Z.log2 n))).
    assert (HF : (1 <= F)%nat) by (unfold F; lia).
    assert (Hb : 0 <= n < 2 ^ Z.of_nat F) by (apply fuel_enough; lia).
    clearbody F.
    rewrite showDigits_app. change ("" ++ rest) with rest.
    by destruct (showDigits_parseInt F n rest HF Hb Hrest) as [-> _].
Qed.

Lemma parseInt_reads_decimal_witness :
  parseInt (Some (" " ++ showZ (-9007199254740992) ++ "b")) = Some (-9007199254740992).
Proof.
  apply (parseInt_reads_decimal (-9007199254740992) " " "b"); [lia|reflexivity..].
Defined.

(** ** [getDateInfo]: the two date strings *)

Lemma showDigits_fuel (f1 : nat) : forall (f2 : nat) (n : Z) (acc : string),
  (1 <= f1)%nat -> (1 <= f2)%nat ->
  0 <= n < 2 ^ Z.of_nat f1 -> 0 <= n < 2 ^ Z.of_nat f2 ->
  showDigits f1 n acc = showDigits f2 n acc.
Proof.
  induction f1 as [|f1 IH]; intros [|f2] n acc H1 H2 Hn1 Hn2; try lia.
  cbn [showDigits]. destruct (n <? 10) eqn:E; [done|].
  apply Z.ltb_ge in E.
  rewrite Nat2Z.inj_succ, Z.pow_succ_r in Hn1, Hn2 by lia.
  assert ((1 <= f1)%nat)
    by (destruct f1; [change (Z.of_nat 0) with 0 in Hn1; rewrite Z.pow_0_r in Hn1; lia|lia]).
  assert ((1 <= f2)%nat)
    by (destruct f2; [change (Z.of_nat 0) with 0 in Hn2; rewrite Z.pow_0_r in Hn2; lia|lia]).
  apply IH; [done..| |]; (split; [apply Z.div_pos; lia|]);
    apply Z.div_lt_upper_bound; lia.
Qed.

Lemma showZ_fuel (n : Z) (f : nat) :
  (1 <= f)%nat -> 0 <= n < 2 ^ Z.of_nat f -> showZ n = showDigits f n "".
Proof.
  intros Hf Hn. unfold showZ.
  destruct (n <? 0) eqn:E; [apply Z.ltb_lt in E; lia|].
  apply showDigits_fuel; [lia|done|apply fuel_enough; lia|done].
Qed.

(** Linear arithmetic with quotients and remainders by constants. *)
Ltac dlia := Z.to_euclidean_division_equations; lia.

Ltac decide_ltb :=
  repeat match goal with
         | |- context [?a <? 10] =>
             let H := fresh in
             destruct (Z.ltb_spec a 10) as [H|H]; try (exfalso; dlia)
         end.

Lemma showZ_1 (n : Z) : 0 <= n <= 9 -> showZ n = String (digitChar n) "".
Proof.
  intros Hn. rewrite (showZ_fuel n 14) by (change (2 ^ Z.of_nat 14) with 16384; lia).
  cbn [showDigits]. decide_ltb. by rewrite Z.mod_small by lia.
Qed.

Lemma showZ_2 (n : Z) : 10 <= n <= 99 -> showZ n = twoDigits n.
Proof.
  intros Hn. rewrite (showZ_fuel n 14) by (change (2 ^ Z.of_nat 14) with 16384; lia).
  cbn [showDigits]. decide_ltb. unfold twoDigits.
  by rewrite (Z.mod_small (n / 10)) by dlia.
Qed.

Lemma showZ_3 (n : Z) :
  100 <= n <= 999 ->
  showZ n = String (digitChar (n / 100)) (twoDigits (n mod 100)).
Proof.
  intros Hn. rewrite (showZ_fuel n 14) by (change (2 ^ Z.of_nat 14) with 16384; lia).
  cbn [showDigits]. decide_ltb. unfold twoDigits.
  replace (n / 10 / 10 mod 10) with (n / 100) by dlia.
  replace (n mod 100 / 10) with (n / 10 mod 10) by dlia.
  by replace (n mod 100 mod 10) with (n mod 10) by dlia.
Qed.

Lemma showZ_4 (n : Z) : 1000 <= n <= 9999 -> showZ n = fourDigits n.
Proof.
  intros Hn. rewrite (showZ_fuel n 14) by (change (2 ^ Z.of_nat 14) with 16384; lia).
  cbn [showDigits]. decide_ltb. unfold fourDigits.
  replace (n / 10 / 10 / 10 mod 10) with (n / 1000) by dlia.
  by replace (n / 10 / 10 mod 10) with (n / 100 mod 10) by dlia.
Qed.

Lemma pad2 (n : Z) : 0 <= n <= 99 -> padStart 2 "0" (showZ n) = twoDigits n.
Proof.
  intros Hn. destruct (decide (n <= 9)) as [H9|H9].
  - rewrite showZ_1 by lia. unfold padStart, twoDigits. simpl.
    rewrite Z.div_small, Z.mod_small by lia. done.
  - by rewrite showZ_2 by lia.
Qed.

Lemma getDateInfo_four_digit_year (getDay : Z -> Z -> Z -> option Z)
    (year month day : Z) :
  1000 <= year <= 9999 -> 0 <= month <= 99 -> 0 <= day <= 99 ->
  dateStr (getDateInfo getDay year month day)
  = fourDigits year ++ twoDigits month ++ twoDigits day
  /\ formattedDate (getDateInfo getDay year month day)
     = twoDigits day ++ "/" ++ twoDigits month ++ "/" ++ fourDigits year.
Proof.
  intros Hy Hm Hd. unfold getDateInfo. cbn [dateStr formattedDate].
  rewrite !pad2 by done. by rewrite showZ_4 by lia.
Qed.

(** X16. For a year written on four digits (1000 to 9999) and a month and
    a day below 100, [getDateInfo] gives the date as YYYYMMDD, eight
    characters, and as DD/MM/YYYY; the month and the day are padded to two
    digits, but the year is not padded: below 1000 the first string has
    fewer than eight characters. *)
Theorem getDateInfo_strings (getDay : Z -> Z -> Z -> option Z) (year month day : Z) :
  0 <= year <= 9999 -> 0 <= month <= 99 -> 0 <= day <= 99 ->
  (1000 <= year ->
     dateStr (getDateInfo getDay year month day)
     = fourDigits year ++ twoDigits month ++ twoDigits day
     /\ formattedDate (getDateInfo getDay year month day)
        = twoDigits day ++ "/" ++ twoDigits month ++ "/" ++ fourDigits year)
  /\ (String.length (dateStr (getDateInfo getDay year month day)) = 8%nat
      <-> 1000 <= year).
Proof.
  intros Hy Hm Hd. unfold getDateInfo. cbn [dateStr formattedDate].
  rewrite !pad2 by done. split.
  - intros H4. by rewrite showZ_4 by lia.
  - destruct (decide (year <= 9)); [rewrite showZ_1 by lia; simpl; split; [done|lia]|].
    destruct (decide (year <= 99)); [rewrite showZ_2 by lia; simpl; split; [done|lia]|].
    destruct (decide (year <= 999)); [rewrite showZ_3 by lia; simpl; split; [done|lia]|].
    rewrite showZ_4 by lia. simpl. split; [lia|done].
Qed.

Lemma getDateInfo_strings_witness :
  dateStr (getDateInfo (fun _ _ _ => Some 1) 2024 6 3)
  = fourDigits 2024 ++ twoDigits 6 ++ twoDigits 3.
Proof.
  refine (proj1 (proj1 (getDateInfo_strings (fun _ _ _ => Some 1) 2024 6 3 _ _ _) _));
    lia.
Defined.

Lemma N_of_digitChar (k : Z) : 0 <= k <= 9 -> N_of_ascii (digitChar k) = Z.to_N (48 + k).
Proof.
  intros Hk. unfold digitChar. apply N_ascii_embedding. lia.
Qed.

Lemma digitsVal_bound (ds : list Z) :
  Forall (fun k => 0 <= k <= 9) ds -> 0 <= digitsVal ds < 10 ^ Z.of_nat (length ds).
Proof.
  induction ds as [|k r IH]; intros Hds; simpl digitsVal.
  - simpl. lia.
  - apply Forall_cons in Hds as [Hk Hr]. specialize (IH Hr).
    rewrite length_cons, Nat2Z.inj_succ, Z.pow_succ_r by lia. nia.
Qed.

Lemma digitsStr_compare (ds1 : list Z) : forall ds2 : list Z,
  length ds1 = length ds2 ->
  Forall (fun k => 0 <= k <= 9) ds1 -> Forall (fun k => 0 <= k <= 9) ds2 ->
  String.compare (digitsStr ds1) (digitsStr ds2)
  = Z.compare (digitsVal ds1) (digitsVal ds2).
Proof.
  induction ds1 as [|k1 r1 IH]; intros [|k2 r2] Hlen H1 H2; try done.
  apply Forall_cons in H1 as [Hk1 Hr1]. apply Forall_cons in H2 as [Hk2 Hr2].
  simpl in Hlen. injection Hlen as Hlen.
  pose proof (digitsVal_bound r1 Hr1) as Hb1.
  pose proof (digitsVal_bound r2 Hr2) as Hb2.
  simpl digitsStr. simpl String.compare. simpl digitsVal.
  unfold Ascii.compare. rewrite !N_of_digitChar by done.
  rewrite (IH r2 Hlen Hr1 Hr2), <- Hlen.
  rewrite Hlen in Hb1 at 1. rewrite <- Hlen in Hb1, Hb2.
  set (P := 10 ^ Z.of_nat (length r1)) in *.
  destruct (N.compare_spec (Z.to_N (48 + k1)) (Z.to_N (48 + k2))) as [He|Hl|Hg].
  - assert (k1 = k2) as -> by lia.
    destruct (Z.compare_spec (digitsVal r1) (digitsVal r2));
      symmetry; [apply Z.compare_eq_iff|apply Z.compare_lt_iff|apply Z.compare_gt_iff];
      lia.
  - symmetry. apply Z.compare_lt_iff. nia.
  - symmetry. apply Z.compare_gt_iff. nia.
Qed.

Lemma date_digits (y m d : Z) :
  1000 <= y <= 9999 -> 0 <= m <= 99 -> 0 <= d <= 99 ->
  fourDigits y ++ twoDigits m ++ twoDigits d
  = digitsStr [y / 1000; y / 100 mod 10; y / 10 mod 10; y mod 10;
               m / 10; m mod 10; d / 10; d mod 10]
  /\ Forall (fun k => 0 <= k <= 9)
       [y / 1000; y / 100 mod 10; y / 10 mod 10; y mod 10;
        m / 10; m mod 10; d / 10; d mod 10]
  /\ digitsVal [y / 1000; y / 100 mod 10; y / 10 mod 10; y mod 10;
                m / 10; m mod 10; d / 10; d mod 10]
     = y * 10000 + m * 100 + d.
Proof.
  intros Hy Hm Hd. split; [done|]. split.
  - repeat constructor; dlia.
  - simpl digitsVal. simpl length.
    change (10 ^ Z.of_nat 7) with 10000000. change (10 ^ Z.of_nat 6) with 1000000.
    change (10 ^ Z.of_nat 5) with 100000. change (10 ^ Z.of_nat 4) with 10000.
    change (10 ^ Z.of_nat 3) with 1000. change (10 ^ Z.of_nat 2) with 100.
    change (10 ^ Z.of_nat 1) with 10. change (10 ^ Z.of_nat 0) with 1.
    dlia.
Qed.

(** X17. For years written on four digits, comparing two YYYYMMDD strings
    of [getDateInfo] character by character is comparing the dates: the
    first string is lexicographically at most the second exactly when the
    first date is not after the second. *)
Theorem date_strings_order (getDay : Z -> Z -> Z -> option Z)
    (y1 m1 d1 y2 m2 d2 : Z) :
  1000 <= y1 <= 9999 -> 0 <= m1 <= 99 -> 0 <= d1 <= 99 ->
  1000 <= y2 <= 9999 -> 0 <= m2 <= 99 -> 0 <= d2 <= 99 ->
  lexLe (dateStr (getDateInfo getDay y1 m1 d1)) (dateStr (getDateInfo getDay y2 m2 d2))
  <-> dateLe y1 m1 d1 y2 m2 d2.
Proof.
  intros Hy1 Hm1 Hd1 Hy2 Hm2 Hd2.
  destruct (getDateInfo_four_digit_year getDay y1 m1 d1) as [-> _]; [lia..|].
  destruct (getDateInfo_four_digit_year getDay y2 m2 d2) as [-> _]; [lia..|].
  destruct (date_digits y1 m1 d1 Hy1 Hm1 Hd1) as (-> & Hf1 & Hv1).
  destruct (date_digits y2 m2 d2 Hy2 Hm2 Hd2) as (-> & Hf2 & Hv2).
  unfold lexLe, dateLe. rewrite digitsStr_compare by done. rewrite Hv1, Hv2.
  destruct (Z.compare_spec (y1 * 10000 + m1 * 100 + d1) (y2 * 10000 + m2 * 100 + d2));
    split; try done; try lia.
Qed.

Lemma date_strings_order_witness :
  lexLe (dateStr (getDateInfo (fun _ _ _ => None) 2023 12 31))
        (dateStr (getDateInfo (fun _ _ _ => None) 2024 1 1))
  <-> dateLe 2023 12 31 2024 1 1.
Proof. apply date_strings_order; lia. Defined.

(** ** The tables handed to the PDF library *)

Lemma stations_at_their_position :
  Forall (fun s => GIPUZKOA_STATIONS !! Z.to_nat (orden s - 1) = Some s
                   /\ rev GIPUZKOA_STATIONS !! Z.to_nat (27 - orden s) = Some s)
    GIPUZKOA_STATIONS.
Proof. unfold GIPUZKOA_STATIONS. repeat constructor. Qed.

Lemma listed_trip_codes (lc : string -> string -> Z) (content : gmap string string)
    (d : DateInfo) (r : Result) (t : ParsedTrip) (c v : string) :
  (parseGTFS lc content d).2 = inr r ->
  t ∈ (toBrinkola r ++ toIrun r)%list -> stops t !! c = Some v ->
  exists s, s ∈ GIPUZKOA_STATIONS /\ codigo s = c
            /\ mkCodeToOrder GIPUZKOA_STATIONS !! c = Some (orden s).
Proof.
  intros Hr Ht Hv.
  apply parseGTFS_success in Hr as (groups & both & Hg & Hnd & _ & _ & Hcl & HB & HI).
  assert (Hin : t ∈ (both.1 ++ both.2)%list).
  { apply elem_of_app in Ht. apply elem_of_app. rewrite HB, HI in Ht.
    by rewrite !sortBy_elem in Ht. }
  destruct Hcl as (_ & _ & H3 & _).
  destruct (H3 t Hin) as (evs & Hevs & _ & _ & f & l & _ & _ & _ & _ & _ & Hm).
  unfold tripStopsOf in Hg. apply stopTimesPass_valid in Hg as [_ Hall].
  rewrite Forall_forall in Hall. destruct (Hall _ Hevs) as [_ Hcodes].
  rewrite Forall_forall in Hcodes. simpl in Hcodes.
  assert (Hc : c ∈ dom (stops t)) by (apply elem_of_dom; by eexists).
  apply (stopsMap_dom _ _ _ Hm) in Hc as [Hc|(e & He & <-)];
    [by rewrite dom_empty in Hc|].
  assert (Hvalid : stop_id e ∈ mkValidStopCodes GIPUZKOA_STATIONS)
    by (apply Hcodes; by apply sortBy_elem in He).
  apply codes_orders_agree in Hvalid as [o Ho].
  destruct (mkCodeToOrder_elem _ _ _ Ho) as (s & Hs & Hcs & <-). by exists s.
Qed.

Lemma cellOf_entry (t : ParsedTrip) (s : StationDef) (v : string) :
  stops t !! codigo s = Some v -> v <> "" -> cellOf t s = v.
Proof. intros Hv Hne. unfold cellOf. rewrite Hv. by destruct v. Qed.

(** X19. No time is lost on the way to the PDF: for a run that returns,
    every non-empty time of a listed trip's mapping stands, in that trip's
    row, in the column of its station: column [position - 1] of the
    outbound table, column [27 - position] of the inbound table. *)
Theorem times_reach_the_tables (lc : string -> string -> Z)
    (content : gmap string string) (d : DateInfo) (r : Result) :
  (parseGTFS lc content d).2 = inr r ->
  exists T1 T2 name,
    generatePDF (toBrinkola r) (toIrun r) (dateUsed r) = ([T1; T2], name)
    /\ (forall i t c v,
          toBrinkola r !! i = Some t -> stops t !! c = Some v -> v <> "" ->
          exists o row, mkCodeToOrder GIPUZKOA_STATIONS !! c = Some o
            /\ bodyRows T1 !! i = Some row /\ row !! Z.to_nat (o - 1) = Some v)
    /\ (forall i t c v,
          toIrun r !! i = Some t -> stops t !! c = Some v -> v <> "" ->
          exists o row, mkCodeToOrder GIPUZKOA_STATIONS !! c = Some o
            /\ bodyRows T2 !! i = Some row /\ row !! Z.to_nat (27 - o) = Some v).
Proof.
  intros Hr. unfold generatePDF. eexists _, _, _. split; [reflexivity|].
  cbn [bodyRows generateTable].
  pose proof stations_at_their_position as Hpos. rewrite Forall_forall in Hpos.
  split; intros i t c v Hi Hv Hne.
  - destruct (listed_trip_codes lc content d r t c v Hr) as (s & Hs & <- & Ho);
      [apply elem_of_app; left; by eapply list_elem_of_lookup_2|done|].
    exists (orden s), (cellOf t <$> GIPUZKOA_STATIONS).
    split; [done|]. split; [by rewrite list_lookup_fmap, Hi|].
    rewrite list_lookup_fmap, (proj1 (Hpos s Hs)). simpl.
    by rewrite (cellOf_entry _ _ _ Hv Hne).
  - destruct (listed_trip_codes lc content d r t c v Hr) as (s & Hs & <- & Ho);
      [apply elem_of_app; right; by eapply list_elem_of_lookup_2|done|].
    exists (orden s), (cellOf t <$> rev GIPUZKOA_STATIONS).
    split; [done|]. split; [by rewrite list_lookup_fmap, Hi|].
    rewrite list_lookup_fmap, (proj2 (Hpos s Hs)). simpl.
    by rewrite (cellOf_entry _ _ _ Hv Hne).
Qed.

Lemma times_reach_the_tables_witness :
  exists T1 T2 name,
    generatePDF (toBrinkola Feed.fullResult) (toIrun Feed.fullResult)
      (dateUsed Feed.fullResult) = ([T1; T2], name).
Proof.
  destruct (times_reach_the_tables codeUnitCompare Feed.full Feed.monday
              Feed.fullResult) as (T1 & T2 & name & H & _).
  - vm_compute. reflexivity.
  - by exists T1, T2, name.
Defined.

Lemma digitChar_not_slash (k : Z) :
  0 <= k <= 9 -> Ascii.eqb (digitChar k) "/" = false.
Proof.
  intros Hk.
  by destruct (digitChar_cases k Hk)
    as [->|[->|[->|[->|[->|[->|[->|[->|[->| ->]]]]]]]]].
Qed.

Lemma replaceSlashes_app (a b : string) :
  replaceSlashes (a ++ b) = replaceSlashes a ++ replaceSlashes b.
Proof. induction a as [|c a IH]; simpl; [done|]. by rewrite IH. Qed.

Lemma replaceSlashes_clean (s : string) :
  ("/"%char ∉ list_ascii_of_string (replaceSlashes s))
  /\ String.length (replaceSlashes s) = String.length s.
Proof.
  induction s as [|c s [IH1 IH2]]; simpl; [split; [apply not_elem_of_nil|done]|].
  split; [|by rewrite IH2].
  apply not_elem_of_cons. split; [|done].
  destruct (Ascii.eqb c "/") eqn:E; [done|]. intros <-. by rewrite Ascii.eqb_refl in E.
Qed.

(** X20. The name the PDF is saved under is the date with every slash
    turned into a dash, between "Cercanias_Gipuzkoa_" and ".pdf": the date
    part has no slash left and keeps its length, and for the DD/MM/YYYY
    string of [getDateInfo] (four-digit year) it reads DD-MM-YYYY. *)
Theorem pdf_file_name (toB toI : list ParsedTrip) (getDay : Z -> Z -> Z -> option Z)
    (year month day : Z) :
  1000 <= year <= 9999 -> 0 <= month <= 99 -> 0 <= day <= 99 ->
  (generatePDF toB toI (formattedDate (getDateInfo getDay year month day))).2
  = "Cercanias_Gipuzkoa_" ++ twoDigits day ++ "-" ++ twoDigits month ++ "-"
    ++ fourDigits year ++ ".pdf"
  /\ forall date,
       (generatePDF toB toI date).2
       = "Cercanias_Gipuzkoa_" ++ replaceSlashes date ++ ".pdf"
       /\ ("/"%char ∉ list_ascii_of_string (replaceSlashes date))
       /\ String.length (replaceSlashes date) = String.length date.
Proof.
  intros Hy Hm Hd. split.
  - destruct (getDateInfo_four_digit_year getDay year month day) as [_ ->]; [lia..|].
    unfold generatePDF. cbn [snd].
    unfold twoDigits, fourDigits. simpl replaceSlashes.
    rewrite !digitChar_not_slash by dlia. reflexivity.
  - intros date. split; [reflexivity|]. apply replaceSlashes_clean.
Qed.

Lemma pdf_file_name_witness :
  (generatePDF [] [] (formattedDate (getDateInfo (fun _ _ _ => Some 1) 2024 6 3))).2
  = "Cercanias_Gipuzkoa_" ++ twoDigits 3 ++ "-" ++ twoDigits 6 ++ "-"
    ++ fourDigits 2024 ++ ".pdf".
Proof.
  refine (proj1 (pdf_file_name [] [] (fun _ _ _ => Some 1) 2024 6 3 _ _ _)); lia.
Defined.
